(** * rosapi.objectutils: typedef extraction and recursive expansion

    A shallow embedding of [rosapi/src/rosapi/objectutils.py] and the
    properties of the typedefs and typedef closures it produces.

    Python values are a tagged union [pyval]; exceptions are an error
    monad [res]; the shared, mutated [typesseen] list of the recursive
    expander is threaded explicitly; the type loader [ros_loader] is a
    finite table of instances. *)

From stdpp Require Import base decidable option list strings gmap sorting pretty.
From Stdlib Require Import ZArith Lia Ascii.

Local Open Scope Z_scope.

#[local] Set Warnings "-clear-no-such-hyp".

(** ** Exceptions *)

Inductive exn :=
  | AttributeError
  | IndexError
  | ValueError
  | LoaderError.

Inductive res (A : Type) :=
  | Ok (a : A)
  | Raise (e : exn).
Arguments Ok {A} a.
Arguments Raise {A} e.

#[global] Instance res_ret : MRet res := fun _ a => Ok a.
#[global] Instance res_bind : MBind res := fun _ _ k m =>
  match m with
  | Ok a => k a
  | Raise e => Raise e
  end.

Definition from_option {A} (e : exn) (o : option A) : res A :=
  match o with
  | Some a => Ok a
  | None => Raise e
  end.

(** ** Python string primitives *)

Module Py.

(** A slice bound [i] of a sequence of length [len], as Python
    normalises it: negative bounds count from the end, and every bound is
    clamped to [0, len]. *)
Definition bound (len i : Z) : Z :=
  if i <? 0 then Z.max 0 (i + len) else Z.min i len.

(** [s[start:stop]]; [None] is an omitted bound. *)
Definition slice (s : string) (start stop : option Z) : string :=
  let len := Z.of_nat (String.length s) in
  let lo := match start with Some i => bound len i | None => 0 end in
  let hi := match stop with Some j => bound len j | None => len end in
  String.substring (Z.to_nat lo) (Z.to_nat (hi - lo)) s.

(** [s.find(sub)]: the index of the first occurrence, [-1] when there is
    none. *)
Definition find (s sub : string) : Z :=
  match String.index 0 sub s with
  | Some n => Z.of_nat n
  | None => -1
  end.

(** [s.startswith(p)] and [s.endswith(p)]. *)
Definition startswith (s p : string) : bool := String.prefix p s.
Definition endswith (s p : string) : bool :=
  let n := String.length s in
  let m := String.length p in
  (m <=? n)%nat && String.eqb (String.substring (n - m) m s) p.

Definition is_digit (c : ascii) : bool :=
  let n := nat_of_ascii c in (48 <=? n)%nat && (n <=? 57)%nat.

Definition digit_value (c : ascii) : Z := Z.of_nat (nat_of_ascii c) - 48.

Definition is_ascii_space (c : ascii) : bool :=
  let n := nat_of_ascii c in ((9 <=? n)%nat && (n <=? 13)%nat) || (n =? 32)%nat.

Fixpoint lstrip (s : string) : string :=
  match s with
  | String c s' => if is_ascii_space c then lstrip s' else s
  | EmptyString => s
  end.

Fixpoint rstrip (s : string) : string :=
  match s with
  | String c s' =>
      match rstrip s' with
      | EmptyString => if is_ascii_space c then EmptyString else String c EmptyString
      | r => String c r
      end
  | EmptyString => s
  end.

Definition strip (s : string) : string := rstrip (lstrip s).

(** The digits of an integer literal, most significant first; single
    underscores may separate digits. [after_digit] records that the
    previous character was a digit. *)
Fixpoint int_digits (acc : Z) (after_digit : bool) (s : string) : option Z :=
  match s with
  | EmptyString => if after_digit then Some acc else None
  | String c s' =>
      if is_digit c then int_digits (10 * acc + digit_value c) true s'
      else if (Ascii.eqb c "_"%char && after_digit)%bool then int_digits acc false s'
      else None
  end.

(** [int(s)] for a string [s], base 10: surrounding ASCII white space,
    an optional sign, then digits. [None] is a ValueError. *)
Definition int (s : string) : option Z :=
  match strip s with
  | String "+"%char ds => int_digits 0 false ds
  | String "-"%char ds => Z.opp <$> int_digits 0 false ds
  | ds => int_digits 0 false ds
  end.

End Py.

(** ** Python values *)

(** The values the module handles. A float, a routine and an object
    carry the text [str] gives for them. An object has its
    [__module__], the [__name__] of its class, [__slots__] and
    [_slot_types] when it has these attributes, and the table of the
    attributes that [dir] lists and [getattr] reads. *)
#[warnings="-register-all"]
Inductive pyval :=
  | PyNone
  | PyBool (b : bool)
  | PyInt (n : Z)
  | PyFloat (shown : string)
  | PyStr (s : string)
  | PyList (items : list pyval)
  | PyDict (items : list (pyval * pyval))
  | PyRoutine (module_ class_name shown : string)
  | PyObject (module_ class_name : string)
             (slots slot_types : option (list string))
             (attrs : gmap string pyval)
             (shown : string).

Module PyVal.

Definition quote : string := String (ascii_of_nat 39) EmptyString.

Fixpoint join (sep : string) (l : list string) : string :=
  match l with
  | [] => ""
  | [x] => x
  | x :: l' => x +:+ sep +:+ join sep l'
  end.

(** [repr(v)]; a string is shown between single quotes, without
    escapes. *)
Fixpoint repr (v : pyval) : string :=
  match v with
  | PyNone => "None"
  | PyBool b => if b then "True" else "False"
  | PyInt n => pretty n
  | PyFloat shown => shown
  | PyStr s => quote +:+ s +:+ quote
  | PyList items => "[" +:+ join ", " (map repr items) +:+ "]"
  | PyDict items =>
      "{" +:+ join ", " (map (fun kv => let '(k, x) := kv in repr k +:+ ": " +:+ repr x) items) +:+ "}"
  | PyRoutine _ _ shown => shown
  | PyObject _ _ _ _ _ shown => shown
  end.

(** [str(v)] *)
Definition str (v : pyval) : string :=
  match v with
  | PyStr s => s
  | _ => repr v
  end.

(** [v.__module__]; the built-in values have no such attribute. *)
Definition module_of (v : pyval) : res string :=
  match v with
  | PyRoutine m _ _ => Ok m
  | PyObject m _ _ _ _ _ => Ok m
  | _ => Raise AttributeError
  end.

(** [v.__class__.__name__] *)
Definition class_name_of (v : pyval) : string :=
  match v with
  | PyNone => "NoneType"
  | PyBool _ => "bool"
  | PyInt _ => "int"
  | PyFloat _ => "float"
  | PyStr _ => "str"
  | PyList _ => "list"
  | PyDict _ => "dict"
  | PyRoutine _ c _ => c
  | PyObject _ c _ _ _ _ => c
  end.

(** The attribute table of an object; other values are given none. *)
Definition attrs_of (v : pyval) : gmap string pyval :=
  match v with
  | PyObject _ _ _ _ attrs _ => attrs
  | _ => ∅
  end.

(** [v.__slots__] and [v._slot_types], when [v] has the attribute. *)
Definition slots_of (v : pyval) : option (list string) :=
  match v with
  | PyObject _ _ slots _ _ _ => slots
  | _ => None
  end.

Definition slot_types_of (v : pyval) : option (list string) :=
  match v with
  | PyObject _ _ _ slot_types _ _ => slot_types
  | _ => None
  end.

(** [getattr(v, name)] *)
Definition getattr (v : pyval) (name : string) : res pyval :=
  from_option AttributeError (attrs_of v !! name).

(** [isinstance(v, list)] *)
Definition is_list (v : pyval) : bool :=
  match v with
  | PyList _ => true
  | _ => false
  end.

(** [inspect.isroutine(v)] *)
Definition isroutine (v : pyval) : bool :=
  match v with
  | PyRoutine _ _ _ => true
  | _ => false
  end.

(** [callable(v)]: a routine, a class (an object of the class [type]),
    or an object that has [__call__] from its class. *)
Definition callable (v : pyval) : bool :=
  match v with
  | PyRoutine _ _ _ => true
  | PyObject _ c _ _ attrs _ =>
      bool_decide (c = "type") || bool_decide (is_Some (attrs !! "__call__"))
  | _ => false
  end.

(** The order in which [inspect.getmembers] sorts its pairs: the names
    are distinct, so the name decides. *)
Definition member_le (p q : string * pyval) : Prop := String.le p.1 q.1.

#[global] Instance member_le_dec : RelDecision member_le.
Proof. intros p q. unfold member_le. apply _. Defined.

(** [inspect.getmembers(object, predicate)]: the attributes whose value
    satisfies the predicate, sorted by name. *)
Definition getmembers (object : pyval) (predicate : pyval → bool) : list (string * pyval) :=
  merge_sort member_le
    (filter (fun kv => predicate kv.2 = true) (map_to_list (attrs_of object))).

End PyVal.

(** ** The type loader *)

(** Modelled from the spec: [rosbridge_library.internal.ros_loader], which
    is not among the sources. Section 6 of the specification gives its
    contract: each of the three lookups returns a representative instance
    for a name it knows and fails for any other. A loader is the finite
    table of the instances it can produce. *)
Record ros_loader := {
  message_instances : gmap string pyval;
  service_request_instances : gmap string pyval;
  service_response_instances : gmap string pyval;
}.

Definition get_message_instance (loader : ros_loader) (type_ : string) : res pyval :=
  from_option LoaderError (message_instances loader !! type_).

Definition get_service_request_instance (loader : ros_loader) (servicetype : string) : res pyval :=
  from_option LoaderError (service_request_instances loader !! servicetype).

Definition get_service_response_instance (loader : ros_loader) (servicetype : string) : res pyval :=
  from_option LoaderError (service_response_instances loader !! servicetype).

(** ** objectutils.py *)

Definition atomics : list string :=
  ["bool"; "byte"; "int8"; "uint8"; "int16"; "uint16"; "int32"; "uint32";
   "int64"; "uint64"; "float32"; "float64"; "string"].

Definition specials : list string := ["time"; "duration"].

(** [TypeDefDict]: a dict with the key ['type'] and the six keys of
    [FIELDS]. *)
Record TypeDefDict := {
  type : string;
  fieldnames : list string;
  fieldtypes : list string;
  fieldarraylen : list Z;
  examples : list string;
  constnames : list string;
  constvalues : list string;
}.

(** [TypeDefDict()] *)
Definition TypeDefDict_init : TypeDefDict :=
  {| type := " "; fieldnames := []; fieldtypes := []; fieldarraylen := [];
     examples := []; constnames := []; constvalues := [] |}.

Definition _type_name_from_instance (instance : pyval) : res string :=
  mod_ ← PyVal.module_of instance;
  Ok (Py.slice mod_ (Some 0) (Some (Py.find mod_ ".")) +:+ "/" +:+ PyVal.class_name_of instance).

Definition _type_name (type_ : string) (instance : pyval) : res string :=
  if decide (type_ ∈ atomics ∨ type_ ∈ specials) then Ok type_
  else if PyVal.is_list instance then Ok type_
  else _type_name_from_instance instance.

(** The array part of a declared field type (lines 124-132 of
    [_get_typedef]): the base type and [arraylen]. *)
Definition array_suffix (field_type : string) : res (string * Z) :=
  if decide (Py.slice field_type (Some (-1)) None = "]") then
    if decide (Py.slice field_type (Some (-2)) (Some (-1)) = "[") then
      Ok (Py.slice field_type None (Some (-2)), 0)
    else
      let split := Py.find field_type "[" in
      arraylen ← from_option ValueError
                   (Py.int (Py.slice field_type (Some (split + 1)) (Some (-1))));
      Ok (Py.slice field_type None (Some split), arraylen)
  else Ok (field_type, -1).

(** The example of a field (lines 140-145). *)
Definition example_of (field_type : string) (arraylen : Z) (field_instance : pyval) : pyval :=
  if decide (0 ≤ arraylen) then PyList []
  else if decide (field_type ∉ atomics) then PyDict []
  else field_instance.

(** The loop over [range(len(instance.__slots__))] (lines 117-145); [i]
    is the index of the first of the remaining [names]. *)
Fixpoint fields_loop (instance : pyval) (slot_types : list string)
    (i : nat) (names : list string)
    (fieldnames fieldtypes : list string) (fieldarraylen : list Z) (examples : list string)
    : res (list string * list string * list Z * list string) :=
  match names with
  | [] => Ok (fieldnames, fieldtypes, fieldarraylen, examples)
  | name :: names =>
      let fieldnames := fieldnames ++ [name] in
      field_type ← from_option IndexError (slot_types !! i);
      '(field_type, arraylen) ← array_suffix field_type;
      let fieldarraylen := fieldarraylen ++ [arraylen] in
      field_instance ← PyVal.getattr instance name;
      qualified ← _type_name field_type field_instance;
      let fieldtypes := fieldtypes ++ [qualified] in
      let example := example_of field_type arraylen field_instance in
      let examples := examples ++ [PyVal.str example] in
      fields_loop instance slot_types (S i) names fieldnames fieldtypes fieldarraylen examples
  end.

Definition is_dunder (name : string) : bool :=
  Py.startswith name "__" && Py.endswith name "__".

Definition bookkeeping : list string :=
  ["_md5sum"; "_has_header"; "_type"; "_full_text"; "_slot_types"].

(** The loop over [attributesfiltered] (lines 149-152). *)
Fixpoint consts_loop (slots : list string) (attributesfiltered : list (string * pyval))
    (constnames constvalues : list string) : list string * list string :=
  match attributesfiltered with
  | [] => (constnames, constvalues)
  | (name, value) :: rest =>
      if decide ((name ∉ bookkeeping) ∧ (name ∉ slots)) then
        consts_loop slots rest (constnames ++ [PyVal.str (PyStr name)])
                                (constvalues ++ [PyVal.str value])
      else consts_loop slots rest constnames constvalues
  end.

Definition _get_typedef (instance : pyval) : res (option TypeDefDict) :=
  match instance with
  | PyObject _ _ (Some slots) (Some slot_types) _ _ =>
      '(fieldnames, fieldtypes, fieldarraylen, examples) ←
        fields_loop instance slot_types 0 slots [] [] [] [];
      let allattributes := PyVal.getmembers instance (fun a => negb (PyVal.isroutine a)) in
      let attributesfiltered := filter (fun a => is_dunder a.1 = false) allattributes in
      let '(constnames, constvalues) := consts_loop slots attributesfiltered [] [] in
      type_ ← _type_name_from_instance instance;
      Ok (Some {| type := type_; fieldnames := fieldnames; fieldtypes := fieldtypes;
                  fieldarraylen := fieldarraylen; examples := examples;
                  constnames := constnames; constvalues := constvalues |})
  | _ => Ok None
  end.

(** Field [k] of an instance as [_get_typedef] reads it: its name, its
    declared type, the base type and [arraylen] that the declared type
    gives, and its value. *)
Definition declared_field (instance : pyval) (k : nat)
    (name raw base : string) (arity : Z) (value : pyval) : Prop :=
  PyVal.slots_of instance ≫= (.!! k) = Some name ∧
  PyVal.slot_types_of instance ≫= (.!! k) = Some raw ∧
  array_suffix raw = Ok (base, arity) ∧
  PyVal.getattr instance name = Ok value.

Definition _get_special_typedef (type_ : string) : TypeDefDict :=
  if decide (type_ ∈ specials) then
    {| type := type_; fieldnames := ["secs"; "nsecs"]; fieldtypes := ["int32"; "int32"];
       fieldarraylen := [-1; -1]; examples := ["0"; "0"];
       constnames := []; constvalues := [] |}
  else TypeDefDict_init.

Section Loader.

Variable loader : ros_loader.

Definition get_typedef (type_ : string) : res (option TypeDefDict) :=
  if decide (type_ ∈ atomics) then Ok None
  else if decide (type_ ∈ specials) then Ok (Some (_get_special_typedef type_))
  else
    instance ← get_message_instance loader type_;
    _get_typedef instance.

Definition get_service_request_typedef (servicetype : string) : res (option TypeDefDict) :=
  instance ← get_service_request_instance loader servicetype;
  _get_typedef instance.

Definition get_service_response_typedef (servicetype : string) : res (option TypeDefDict) :=
  instance ← get_service_response_instance loader servicetype;
  _get_typedef instance.

(** The loop of [_get_subtypedefs_recursive] over the field types (lines
    196-197), with [recursive] for [_get_typedefs_recursive]. The list
    [typesseen] is shared with the callee, which appends to it: the
    callee's list comes back and goes to the next iteration. *)
Fixpoint subtypedefs_loop
    (recursive : string → list string → option (res (list TypeDefDict * list string)))
    (fieldtypes : list string) (typedefs : list TypeDefDict) (typesseen : list string)
    : option (res (list TypeDefDict * list string)) :=
  match fieldtypes with
  | [] => Some (Ok (typedefs, typesseen))
  | fieldtype :: fieldtypes =>
      match recursive fieldtype typesseen with
      | None => None
      | Some (Raise e) => Some (Raise e)
      | Some (Ok (sub, typesseen)) =>
          subtypedefs_loop recursive fieldtypes (typedefs ++ sub) typesseen
      end
  end.

Definition subtypedefs
    (recursive : string → list string → option (res (list TypeDefDict * list string)))
    (typedef : option TypeDefDict) (typesseen : list string)
    : option (res (list TypeDefDict * list string)) :=
  match typedef with
  | None => Some (Ok ([], typesseen))
  | Some typedef => subtypedefs_loop recursive (fieldtypes typedef) [typedef] typesseen
  end.

(** [fuel] bounds the depth of the nested calls of
    [_get_typedefs_recursive]; [None] is a run that needs more. The
    result carries the list [typesseen] as the call leaves it. *)
Fixpoint _get_typedefs_recursive (fuel : nat) (type_ : string) (typesseen : list string)
    : option (res (list TypeDefDict * list string)) :=
  match fuel with
  | O => None
  | S fuel =>
      if decide (type_ ∈ typesseen) then Some (Ok ([], typesseen))
      else
        let typesseen := typesseen ++ [type_] in
        match get_typedef type_ with
        | Raise e => Some (Raise e)
        | Ok typedef => subtypedefs (_get_typedefs_recursive fuel) typedef typesseen
        end
  end.

Definition _get_subtypedefs_recursive (fuel : nat) (typedef : option TypeDefDict)
    (typesseen : list string) : option (res (list TypeDefDict * list string)) :=
  subtypedefs (_get_typedefs_recursive fuel) typedef typesseen.

(** A depth that no expansion over this loader reaches (see
    [unseen_bound] and [typedefs_recursive_returns]): the number of its
    message names, the two special names, and one more. *)
Definition depth_bound : nat := S (S (S (size (message_instances loader)))).

Definition returned {A B} (r : option (res (A * B))) : option (res A) :=
  match r with
  | None => None
  | Some (Raise e) => Some (Raise e)
  | Some (Ok (a, _)) => Some (Ok a)
  end.

Definition get_typedef_recursive (type_ : string) : option (res (list TypeDefDict)) :=
  returned (_get_typedefs_recursive depth_bound type_ []).

Definition get_service_request_typedef_recursive (servicetype : string)
    : option (res (list TypeDefDict)) :=
  match get_service_request_typedef servicetype with
  | Raise e => Some (Raise e)
  | Ok typedef => returned (_get_subtypedefs_recursive depth_bound typedef [])
  end.

Definition get_service_response_typedef_recursive (servicetype : string)
    : option (res (list TypeDefDict)) :=
  match get_service_response_typedef servicetype with
  | Raise e => Some (Raise e)
  | Ok typedef => returned (_get_subtypedefs_recursive depth_bound typedef [])
  end.

End Loader.

(** ** Notions the properties are stated with *)

(** The name has a typedef: [get_typedef] returns one. *)
Definition has_typedef (loader : ros_loader) (type_ : string) : bool :=
  match get_typedef loader type_ with
  | Ok (Some _) => true
  | _ => false
  end.

(** The four lists of fields are parallel, and so are the two lists of
    constants. *)
Definition parallel (td : TypeDefDict) : Prop :=
  length (fieldnames td) = length (fieldtypes td) ∧
  length (fieldtypes td) = length (fieldarraylen td) ∧
  length (fieldarraylen td) = length (examples td) ∧
  length (constnames td) = length (constvalues td).

(** The typedefs that the six public functions return, alone or in a
    list. *)
Inductive produced (loader : ros_loader) (td : TypeDefDict) : Prop :=
  | produced_typedef type_ :
      get_typedef loader type_ = Ok (Some td) → produced loader td
  | produced_request servicetype :
      get_service_request_typedef loader servicetype = Ok (Some td) → produced loader td
  | produced_response servicetype :
      get_service_response_typedef loader servicetype = Ok (Some td) → produced loader td
  | produced_recursive type_ l :
      get_typedef_recursive loader type_ = Some (Ok l) → td ∈ l → produced loader td
  | produced_request_recursive servicetype l :
      get_service_request_typedef_recursive loader servicetype = Some (Ok l) → td ∈ l →
      produced loader td
  | produced_response_recursive servicetype l :
      get_service_response_typedef_recursive loader servicetype = Some (Ok l) → td ∈ l →
      produced loader td.

(** The names that can have a typedef: those the loader knows as
    messages, and the two special ones. *)
Definition expandable (loader : ros_loader) : gset string :=
  dom (message_instances loader) ∪ list_to_set specials.

(** How many of them are not in [typesseen]. *)
Definition unseen (loader : ros_loader) (typesseen : list string) : nat :=
  size (expandable loader ∖ list_to_set typesseen).

(** The loader gives, for a message name, an instance of the class of
    that name: the typedef of the instance has the name as its ['type']. *)
Definition named_as (type_ : string) (instance : pyval) : bool :=
  match _get_typedef instance with
  | Ok (Some td) => bool_decide (type td = type_)
  | _ => true
  end.

Definition well_named (loader : ros_loader) : Prop :=
  map_Forall (fun type_ instance => named_as type_ instance = true)
    (message_instances loader).

(** What a call of the expander that returns has done: it appended the
    names [new] to [typesseen], none of them twice and none that was
    there, and it returns the typedefs of those that have one, in that
    order. *)
Definition visited (loader : ros_loader)
    (typesseen : list string) (l : list TypeDefDict) (typesseen' : list string) : Prop :=
  ∃ new,
    typesseen' = typesseen ++ new ∧
    (NoDup typesseen → NoDup typesseen') ∧
    Forall2 (fun td type_ => get_typedef loader type_ = Ok (Some td))
      l (filter (fun type_ => has_typedef loader type_ = true) new).

(** The string is made of decimal digits. *)
Definition all_digits (s : string) : Prop :=
  Forall (fun c => Py.is_digit c = true) (String.list_ascii_of_string s).

(** The members that [_get_typedef] turns into constants. *)
Definition constants_of (instance : pyval) (slots : list string) : list (string * pyval) :=
  filter (fun a => (a.1 ∉ bookkeeping) ∧ (a.1 ∉ slots))
    (filter (fun a => is_dunder a.1 = false)
       (PyVal.getmembers instance (fun a => negb (PyVal.isroutine a)))).

(** Field [k] of an instance can be described: it has a declared type
    whose array part is read, a value, and a qualified type name. *)
Definition field_ok (instance : pyval) (k : nat) (name : string) : Prop :=
  ∃ raw base arity value qualified,
    declared_field instance k name raw base arity value ∧
    _type_name base value = Ok qualified.

(** What an exception of [_get_typedef] tells about the instance with
    the given slots and slot types. For a ValueError: a declared type
    ends in ["]"] and not in ["[]"], and [int] refuses what stands
    between its first ["["] and its last character, so that it is no
    [base[N]] with a decimal [N]. *)
Definition fault (instance : pyval) (slots slot_types : list string) (e : exn) : Prop :=
  match e with
  | IndexError => (length slot_types < length slots)%nat
  | ValueError =>
      ∃ k raw, (k < length slots)%nat ∧ slot_types !! k = Some raw ∧
               Py.endswith raw "]" = true ∧
               Py.slice raw (Some (-2)) (Some (-1)) ≠ "[" ∧
               Py.int (Py.slice raw (Some (Py.find raw "[" + 1)) (Some (-1))) = None ∧
               ∀ base (n : N), Py.find base "[" = -1 →
                               raw ≠ base +:+ "[" +:+ pretty n +:+ "]"
  | AttributeError =>
      ∃ k name raw base arity,
        slots !! k = Some name ∧ slot_types !! k = Some raw ∧
        array_suffix raw = Ok (base, arity) ∧
        (PyVal.attrs_of instance !! name = None ∨
         ∃ value, PyVal.attrs_of instance !! name = Some value ∧
                  ¬ (base ∈ atomics ∨ base ∈ specials) ∧
                  PyVal.is_list value = false ∧
                  PyVal.module_of value = Raise AttributeError)
  | LoaderError => False
  end.

(** The type names that the expansion of [root] can come to: [root], and
    the field types of the typedef of a name it can come to. *)
Inductive reaches (loader : ros_loader) (root : string) : string → Prop :=
  | reaches_root : reaches loader root root
  | reaches_field type_ td fieldtype :
      reaches loader root type_ →
      get_typedef loader type_ = Ok (Some td) →
      fieldtype ∈ fieldtypes td →
      reaches loader root fieldtype.

(** The result of a run with one more type seen before it starts. *)
Definition seen_before (type_ : string) (r : res (list TypeDefDict * list string))
    : res (list TypeDefDict * list string) :=
  match r with
  | Ok (l, typesseen) => Ok (l, type_ :: typesseen)
  | Raise e => Raise e
  end.

(** ** The specification's words *)

(** The first dot-separated segment of a module name, as the
    specification words the prefix of a qualified type name: the
    characters before the first dot, all of them when there is no dot. *)
Fixpoint first_segment (s : string) : string :=
  match s with
  | String c s' => if Ascii.eqb c "." then EmptyString else String c (first_segment s')
  | EmptyString => EmptyString
  end.

(** The expansion of section 4.3 of the specification, depth first and
    in pre-order: [expansion type_ typesseen l typesseen'] expands one
    type name, and [expansions] expands the field types of a typedef one
    after the other, each in full before the next. *)
Inductive expansion (loader : ros_loader)
    : string → list string → list TypeDefDict → list string → Prop :=
  | expansion_seen type_ typesseen :
      type_ ∈ typesseen →
      expansion loader type_ typesseen [] typesseen
  | expansion_absent type_ typesseen :
      type_ ∉ typesseen →
      get_typedef loader type_ = Ok None →
      expansion loader type_ typesseen [] (typesseen ++ [type_])
  | expansion_typedef type_ typesseen td rest typesseen' :
      type_ ∉ typesseen →
      get_typedef loader type_ = Ok (Some td) →
      expansions loader (fieldtypes td) (typesseen ++ [type_]) rest typesseen' →
      expansion loader type_ typesseen (td :: rest) typesseen'
with expansions (loader : ros_loader)
    : list string → list string → list TypeDefDict → list string → Prop :=
  | expansions_nil typesseen :
      expansions loader [] typesseen [] typesseen
  | expansions_cons fieldtype fieldtypes typesseen sub typesseen1 rest typesseen' :
      expansion loader fieldtype typesseen sub typesseen1 →
      expansions loader fieldtypes typesseen1 rest typesseen' →
      expansions loader (fieldtype :: fieldtypes) typesseen (sub ++ rest) typesseen'.

Scheme expansion_mut := Minimality for expansion Sort Prop
  with expansions_mut := Minimality for expansions Sort Prop.
Combined Scheme expansion_mutind from expansion_mut, expansions_mut.

(** ** Sample instances and loaders *)

Module Samples.

(** The attributes every generated message class carries. *)
Definition generated (slot_types : list string) (attrs : gmap string pyval) : gmap string pyval :=
  <["_md5sum" := PyStr "d41d8cd9"]>
  (<["_type" := PyStr ""]>
  (<["_has_header" := PyBool false]>
  (<["_full_text" := PyStr ""]>
  (<["_slot_types" := PyList (PyStr <$> slot_types)]>
  (<["__doc__" := PyNone]>
  (<["serialize" := PyRoutine "genpy.message" "method" "<bound method serialize>"]>
   attrs)))))).

Definition message (module_ class_name : string) (slots slot_types : list string)
    (attrs : gmap string pyval) : pyval :=
  PyObject module_ class_name (Some slots) (Some slot_types) (generated slot_types attrs) "".

(** [genpy.Time()]: it has slots and no [_slot_types]; [str] gives its
    nanoseconds. *)
Definition time_zero : pyval :=
  PyObject "genpy.rostime" "Time" (Some ["secs"; "nsecs"]) None
    (<["secs" := PyInt 0]> (<["nsecs" := PyInt 0]> ∅)) "0".

(** [Point{float64 x, float64 y}] *)
Definition point : pyval :=
  message "geometry_msgs.msg._Point" "Point" ["x"; "y"] ["float64"; "float64"]
    (<["x" := PyFloat "0.0"]> (<["y" := PyFloat "0.0"]> ∅)).

(** A message with a field of each kind, and two constants. *)
Definition track : pyval :=
  message "nav_msgs.msg._Track" "Track"
    ["count"; "stamp"; "origin"; "points"; "ids"; "label"]
    ["int32"; "time"; "geometry_msgs/Point"; "geometry_msgs/Point[]"; "int32[3]"; "string"]
    (<["count" := PyInt 7]>
    (<["stamp" := time_zero]>
    (<["origin" := point]>
    (<["points" := PyList []]>
    (<["ids" := PyList [PyInt 0; PyInt 0; PyInt 0]]>
    (<["label" := PyStr "none"]>
    (<["OPEN" := PyInt 0]>
    (<["CLOSED" := PyInt 1]> ∅)))))))).

Definition track_typedef : TypeDefDict :=
  {| type := "nav_msgs/Track";
     fieldnames := ["count"; "stamp"; "origin"; "points"; "ids"; "label"];
     fieldtypes := ["int32"; "time"; "geometry_msgs/Point"; "geometry_msgs/Point";
                    "int32"; "string"];
     fieldarraylen := [-1; -1; -1; 0; 3; -1];
     examples := ["7"; "{}"; "{}"; "[]"; "[]"; "none"];
     constnames := ["CLOSED"; "OPEN"];
     constvalues := ["1"; "0"] |}.

(** Classes of a module that is not inside a package. *)
Definition circle : pyval :=
  message "shapes" "Circle" ["radius"] ["float64"] (<["radius" := PyFloat "0.0"]> ∅).

Definition drawing : pyval :=
  message "shapes" "Drawing" ["outline"] ["shapes/Circle"] (<["outline" := circle]> ∅).

Definition time_typedef : TypeDefDict :=
  {| type := "time"; fieldnames := ["secs"; "nsecs"]; fieldtypes := ["int32"; "int32"];
     fieldarraylen := [-1; -1]; examples := ["0"; "0"];
     constnames := []; constvalues := [] |}.

Definition point_typedef : TypeDefDict :=
  {| type := "geometry_msgs/Point"; fieldnames := ["x"; "y"];
     fieldtypes := ["float64"; "float64"]; fieldarraylen := [-1; -1];
     examples := ["0.0"; "0.0"]; constnames := []; constvalues := [] |}.

Definition track_closure : list TypeDefDict :=
  [track_typedef; time_typedef; point_typedef].

Definition nav_loader : ros_loader :=
  {| message_instances :=
       <["nav_msgs/Track" := track]> (<["geometry_msgs/Point" := point]> ∅);
     service_request_instances := <["nav_msgs/GetTrack" := point]> ∅;
     service_response_instances := <["nav_msgs/GetTrack" := track]> ∅ |}.

(** [Node{Node[] children}]: a type that refers to itself. *)
Definition node : pyval :=
  message "graph_msgs.msg._Node" "Node" ["children"] ["graph_msgs/Node[]"]
    (<["children" := PyList []]> ∅).

Definition node_typedef : TypeDefDict :=
  {| type := "graph_msgs/Node"; fieldnames := ["children"];
     fieldtypes := ["graph_msgs/Node"]; fieldarraylen := [0]; examples := ["[]"];
     constnames := []; constvalues := [] |}.

(** [Graph{Edge[] edges}] and [Edge{Graph[] inner}]: two types that refer
    to each other. *)
Definition graph : pyval :=
  message "graph_msgs.msg._Graph" "Graph" ["edges"] ["graph_msgs/Edge[]"]
    (<["edges" := PyList []]> ∅).

Definition edge : pyval :=
  message "graph_msgs.msg._Edge" "Edge" ["inner"] ["graph_msgs/Graph[]"]
    (<["inner" := PyList []]> ∅).

Definition graph_typedef : TypeDefDict :=
  {| type := "graph_msgs/Graph"; fieldnames := ["edges"];
     fieldtypes := ["graph_msgs/Edge"]; fieldarraylen := [0]; examples := ["[]"];
     constnames := []; constvalues := [] |}.

Definition edge_typedef : TypeDefDict :=
  {| type := "graph_msgs/Edge"; fieldnames := ["inner"];
     fieldtypes := ["graph_msgs/Graph"]; fieldarraylen := [0]; examples := ["[]"];
     constnames := []; constvalues := [] |}.

(** The request of a service [Walk], with a list of requests as its
    field; the loader also gives it under its own name. *)
Definition walk_request : pyval :=
  message "graph_msgs.srv._Walk" "WalkRequest" ["next"] ["graph_msgs/WalkRequest[]"]
    (<["next" := PyList []]> ∅).

Definition walk_request_typedef : TypeDefDict :=
  {| type := "graph_msgs/WalkRequest"; fieldnames := ["next"];
     fieldtypes := ["graph_msgs/WalkRequest"]; fieldarraylen := [0]; examples := ["[]"];
     constnames := []; constvalues := [] |}.

Definition graph_loader : ros_loader :=
  {| message_instances :=
       <["graph_msgs/Node" := node]>
       (<["graph_msgs/Graph" := graph]>
       (<["graph_msgs/Edge" := edge]>
       (<["graph_msgs/WalkRequest" := walk_request]> ∅)));
     service_request_instances := <["graph_msgs/Walk" := walk_request]> ∅;
     service_response_instances := <["graph_msgs/Walk" := graph]> ∅ |}.

(** A loader that knows the node type under a second spelling of its
    name, with a leading slash. *)
Definition alias_loader : ros_loader :=
  {| message_instances :=
       <["graph_msgs/Node" := node]> (<["/graph_msgs/Node" := node]> ∅);
     service_request_instances := ∅;
     service_response_instances := ∅ |}.

(** [PointArray{Point[] points}] *)
Definition point_array : pyval :=
  message "geometry_msgs.msg._PointArray" "PointArray" ["points"] ["geometry_msgs/Point[]"]
    (<["points" := PyList []]> ∅).

Definition point_array_typedef : TypeDefDict :=
  {| type := "geometry_msgs/PointArray"; fieldnames := ["points"];
     fieldtypes := ["geometry_msgs/Point"]; fieldarraylen := [0]; examples := ["[]"];
     constnames := []; constvalues := [] |}.

Definition geometry_loader : ros_loader :=
  {| message_instances :=
       <["geometry_msgs/PointArray" := point_array]>
       (<["geometry_msgs/Point" := point]> ∅);
     service_request_instances := ∅;
     service_response_instances := ∅ |}.

(** A message class with a nested class: the attribute [Factory] is a
    class, which can be called and is no routine. *)
Definition factory : pyval :=
  PyObject "nav_msgs.msg._Plant" "type" None None ∅
    "<class 'nav_msgs.msg._Plant.Plant.Factory'>".

Definition plant : pyval :=
  message "nav_msgs.msg._Plant" "Plant" ["size"] ["int32"]
    (<["size" := PyInt 0]> (<["Factory" := factory]> ∅)).

Definition plant_typedef : TypeDefDict :=
  {| type := "nav_msgs/Plant"; fieldnames := ["size"]; fieldtypes := ["int32"];
     fieldarraylen := [-1]; examples := ["0"];
     constnames := ["Factory"];
     constvalues := ["<class 'nav_msgs.msg._Plant.Plant.Factory'>"] |}.




(** A message with a list of a type that the loader does not know. *)
Definition route : pyval :=
  message "nav_msgs.msg._Route" "Route" ["start"; "poses"]
    ["geometry_msgs/Point"; "geometry_msgs/Pose[]"]
    (<["start" := point]> (<["poses" := PyList []]> ∅)).

Definition dangling_loader : ros_loader :=
  {| message_instances :=
       <["nav_msgs/Route" := route]> (<["geometry_msgs/Point" := point]> ∅);
     service_request_instances := <["nav_msgs/GetRoute" := point]> ∅;
     service_response_instances := <["nav_msgs/GetRoute" := route]> ∅ |}.

(** The loader of the navigation messages with the graph messages
    added. *)
Definition wider_loader : ros_loader :=
  {| message_instances :=
       <["graph_msgs/Node" := node]> (message_instances nav_loader);
     service_request_instances := ∅;
     service_response_instances := ∅ |}.

End Samples.

(** * Properties *)

(** ** The string primitives on the strings of the source *)

Example slice_examples :
  Py.slice "int32[3]" (Some (-1)) None = "]" ∧
  Py.slice "int32[3]" (Some (-2)) (Some (-1)) = "3" ∧
  Py.slice "int32[]" (Some (-2)) (Some (-1)) = "[" ∧
  Py.slice "int32[]" None (Some (-2)) = "int32" ∧
  Py.slice "int32[3]" (Some 6) (Some (-1)) = "3" ∧
  Py.slice "int32[3]" None (Some 5) = "int32" ∧
  Py.slice "" (Some (-1)) None = "" ∧
  Py.slice "std_msgs.msg._Header" (Some 0) (Some 8) = "std_msgs" ∧
  Py.slice "shapes" (Some 0) (Some (-1)) = "shape".
Proof. repeat split; vm_compute; reflexivity. Qed.

Example find_examples :
  Py.find "int32[3]" "[" = 5 ∧
  Py.find "int32" "[" = -1 ∧
  Py.find "std_msgs.msg._Header" "." = 8 ∧
  Py.find "" "." = -1.
Proof. repeat split; vm_compute; reflexivity. Qed.

Example int_examples :
  Py.int "3" = Some 3 ∧
  Py.int "007" = Some 7 ∧
  Py.int " 12 " = Some 12 ∧
  Py.int "-4" = Some (-4) ∧
  Py.int "" = None ∧
  Py.int "2][3" = None ∧
  Py.int "a" = None.
Proof. repeat split; vm_compute; reflexivity. Qed.

Example dunder_examples :
  is_dunder "__slots__" = true ∧
  is_dunder "__" = true ∧
  is_dunder "_md5sum" = false ∧
  is_dunder "__x" = false ∧
  is_dunder "OPEN" = false.
Proof. repeat split; vm_compute; reflexivity. Qed.

Example str_examples :
  PyVal.str (PyList []) = "[]" ∧
  PyVal.str (PyDict []) = "{}" ∧
  PyVal.str (PyInt (-3)) = "-3" ∧
  PyVal.str (PyBool true) = "True" ∧
  PyVal.str (PyStr "none") = "none" ∧
  PyVal.str (PyList [PyInt 0; PyInt 0]) = "[0, 0]".
Proof. repeat split; vm_compute; reflexivity. Qed.

(** ** The scenarios of section 8 of the specification *)

Example scalar_only_scenario :
  _get_typedef Samples.point = Ok (Some Samples.point_typedef) ∧
  examples Samples.point_typedef = [PyVal.str (PyFloat "0.0"); PyVal.str (PyFloat "0.0")].
Proof. split; vm_compute; reflexivity. Qed.

Example variable_array_scenario :
  get_typedef_recursive Samples.geometry_loader "geometry_msgs/PointArray"
  = Some (Ok [Samples.point_array_typedef; Samples.point_typedef]).
Proof. vm_compute. reflexivity. Qed.

Example fixed_array_scenario : array_suffix "int32[3]" = Ok ("int32", 3).
Proof. vm_compute. reflexivity. Qed.

Example track_scenario :
  _get_typedef Samples.track = Ok (Some Samples.track_typedef) ∧
  get_typedef_recursive Samples.nav_loader "nav_msgs/Track" = Some (Ok Samples.track_closure).
Proof. split; vm_compute; reflexivity. Qed.

(** ** Strings, slices and [find] *)

Section Strings.

Implicit Types (s a b : string) (c : ascii).

Lemma length_append a b :
  String.length (a +:+ b) = (String.length a + String.length b)%nat.
Proof. induction a as [|c a IH]; simpl; [done|by rewrite IH]. Qed.

Lemma append_assoc a b s : (a +:+ b) +:+ s = a +:+ (b +:+ s).
Proof.
  induction a as [|c a IH]; [done|].
  change (String c ((a +:+ b) +:+ s) = String c (a +:+ (b +:+ s))). by f_equal.
Qed.

Lemma substring_all s : String.substring 0 (String.length s) s = s.
Proof. induction s as [|c s IH]; simpl; [done|by rewrite IH]. Qed.

Lemma substring_app_skip a b k n :
  String.substring (String.length a + k) n (a +:+ b) = String.substring k n b.
Proof. induction a as [|c a IH]; simpl; [done|apply IH]. Qed.

Lemma substring_app_take a b n :
  (n ≤ String.length a)%nat →
  String.substring 0 n (a +:+ b) = String.substring 0 n a.
Proof.
  revert n. induction a as [|c a IH]; intros [|n] Hn; simpl in *; try lia.
  - by destruct b.
  - done.
  - by rewrite IH by lia.
Qed.

Lemma substring_app_l a b : String.substring 0 (String.length a) (a +:+ b) = a.
Proof. by rewrite substring_app_take, substring_all. Qed.

Lemma index_char_cons c c' a :
  String.index 0 (String c "") (String c' a)
  = if decide (c = c') then Some 0%nat else S <$> String.index 0 (String c "") a.
Proof.
  cbn [String.index String.prefix].
  destruct (ascii_dec c c') as [->|Hc].
  - rewrite decide_True by done. by destruct a.
  - rewrite decide_False by done. by destruct (String.index 0 (String c "") a).
Qed.

Lemma find_absent a c :
  Py.find a (String c "") = -1 ↔ String.index 0 (String c "") a = None.
Proof.
  unfold Py.find. destruct (String.index _ _ _); split; intros; try done; lia.
Qed.

(** The first occurrence of a character: it follows a prefix that does
    not have it. *)
Lemma find_first a b c :
  Py.find a (String c "") = -1 →
  Py.find (a +:+ String c b) (String c "") = Z.of_nat (String.length a).
Proof.
  rewrite find_absent. unfold Py.find. intros Ha.
  assert (String.index 0 (String c "") (a +:+ String c b) = Some (String.length a)) as ->; [|done].
  induction a as [|c' a IH]; simpl in *.
  - destruct (ascii_dec c c); [|done]. by destruct b.
  - destruct (ascii_dec c c') as [->|_].
    + by destruct a.
    + destruct (String.index 0 (String c "") a); [done|]. by rewrite IH.
Qed.

(** Brings a slice to [String.substring lo n _] with [lo] and [n] as
    given. *)
Ltac slice_to lo n :=
  unfold Py.slice, Py.bound;
  repeat first [rewrite length_append | progress cbn [String.length]];
  repeat match goal with
         | |- context [if ?x <? ?y then _ else _] => destruct (Z.ltb_spec x y); try lia
         end;
  match goal with
  | |- String.substring ?x ?y _ = _ =>
      replace x with lo%nat by lia; replace y with n%nat by lia
  end.

Lemma slice_last a c : Py.slice (a +:+ String c "") (Some (-1)) None = String c "".
Proof.
  slice_to (String.length a + 0)%nat 1%nat. by rewrite substring_app_skip.
Qed.

Lemma slice_before_last a c1 c2 :
  Py.slice (a +:+ String c1 (String c2 "")) (Some (-2)) (Some (-1)) = String c1 "".
Proof.
  slice_to (String.length a + 0)%nat 1%nat. by rewrite substring_app_skip.
Qed.

Lemma slice_drop_two a c1 c2 :
  Py.slice (a +:+ String c1 (String c2 "")) None (Some (-2)) = a.
Proof.
  slice_to 0%nat (String.length a). apply substring_app_l.
Qed.

Lemma slice_prefix a b :
  Py.slice (a +:+ b) None (Some (Z.of_nat (String.length a))) = a.
Proof.
  slice_to 0%nat (String.length a). apply substring_app_l.
Qed.

Lemma slice_prefix_from_zero a b :
  Py.slice (a +:+ b) (Some 0) (Some (Z.of_nat (String.length a))) = a.
Proof.
  slice_to 0%nat (String.length a). apply substring_app_l.
Qed.

Lemma slice_between a c m c' :
  Py.slice (a +:+ String c (m +:+ String c' ""))
           (Some (Z.of_nat (String.length a) + 1)) (Some (-1)) = m.
Proof.
  slice_to (String.length a + 1)%nat (String.length m).
  rewrite substring_app_skip. simpl. apply substring_app_l.
Qed.

End Strings.

(** ** [int] reads back the decimal rendering of a number *)

Section Decimal.

Lemma pretty_char_small x :
  (x < 10)%N →
  Py.is_digit (pretty_N_char x) = true ∧ Py.digit_value (pretty_N_char x) = Z.of_N x.
Proof.
  intros Hx. destruct x as [|p]; [by vm_compute|].
  do 4 (try destruct p as [p|p|]); try lia; by vm_compute.
Qed.

Lemma pretty_go_digits x s : all_digits s → all_digits (pretty_N_go x s).
Proof.
  revert s. induction (N.lt_wf_0 x) as [x _ IH]; intros s Hs.
  destruct (decide (x = 0)%N) as [->|Hx]; [by rewrite pretty_N_go_0|].
  rewrite pretty_N_go_step by lia. apply IH.
  - apply N.div_lt; lia.
  - apply Forall_cons. split; [|done].
    apply pretty_char_small, N.mod_lt. done.
Qed.

Lemma int_digits_pretty_go x after s :
  (0 < x)%N →
  Py.int_digits 0 after (pretty_N_go x s) = Py.int_digits (Z.of_N x) true s.
Proof.
  revert after s. induction (N.lt_wf_0 x) as [x _ IH]; intros after s Hx.
  rewrite pretty_N_go_step by done.
  destruct (pretty_char_small (x `mod` 10)%N) as [Hd Hv]; [by apply N.mod_lt|].
  assert (Z.of_N x = 10 * Z.of_N (x `div` 10) + Z.of_N (x `mod` 10)) as Hdm.
  { rewrite (N.div_mod x 10) at 1 by done.
    by rewrite N2Z.inj_add, N2Z.inj_mul. }
  assert (x `div` 10 < x)%N as Hlt by (apply N.div_lt; lia).
  revert Hdm Hlt Hd Hv.
  generalize (x `div` 10)%N (pretty_N_char (x `mod` 10)) (Z.of_N (x `mod` 10)).
  intros q c r Hdm Hlt Hd Hv.
  destruct (decide (q = 0)%N) as [->|Hq].
  - rewrite pretty_N_go_0. simpl. rewrite Hd, Hv. f_equal. lia.
  - rewrite IH by lia. simpl. rewrite Hd, Hv. f_equal. lia.
Qed.

Lemma digit_not_space c : Py.is_digit c = true → Py.is_ascii_space c = false.
Proof.
  unfold Py.is_digit, Py.is_ascii_space. intros H.
  apply andb_true_iff in H as [H1 H2].
  apply Nat.leb_le in H1, H2.
  apply orb_false_iff. split.
  - apply andb_false_iff. right. apply Nat.leb_gt. lia.
  - apply Nat.eqb_neq. lia.
Qed.

Lemma strip_digits s : all_digits s → Py.strip s = s.
Proof.
  intros Hs. unfold Py.strip.
  assert (Py.lstrip s = s) as ->.
  { destruct s as [|c s]; [done|]. simpl.
    apply Forall_cons in Hs as [Hc _]. by rewrite (digit_not_space c). }
  induction s as [|c s IH]; [done|].
  apply Forall_cons in Hs as [Hc Hs]. simpl. rewrite IH by done.
  destruct s; [|done]. by rewrite (digit_not_space c).
Qed.

Lemma int_digits_pretty (n : N) : Py.int_digits 0 false (pretty n) = Some (Z.of_N n).
Proof.
  unfold pretty, pretty_N. destruct (decide (n = 0)%N) as [->|Hn]; [done|].
  by rewrite int_digits_pretty_go by lia.
Qed.

Lemma pretty_digits (n : N) : all_digits (pretty n) ∧ pretty n ≠ "".
Proof.
  split.
  - unfold pretty, pretty_N. destruct (decide (n = 0)%N) as [->|Hn].
    + by repeat constructor.
    + by apply pretty_go_digits, Forall_nil.
  - intros Heq. pose proof (int_digits_pretty n) as Hint.
    by rewrite Heq in Hint.
Qed.

(** [int] of the decimal rendering of [n] is [n]. *)
Lemma int_pretty (n : N) : Py.int (pretty n) = Some (Z.of_N n).
Proof.
  destruct (pretty_digits n) as [Hd Hne].
  unfold Py.int. rewrite strip_digits by done.
  pose proof (int_digits_pretty n) as Hint.
  destruct (pretty n) as [|c ds] eqn:Hp; [done|].
  apply Forall_cons in Hd as [Hc _].
  destruct (decide (c = "+"%char)) as [->|Hplus]; [done|].
  destruct (decide (c = "-"%char)) as [->|Hminus]; [done|].
  destruct c as [[] [] [] [] [] [] [] []]; done.
Qed.

(** A string that is not empty ends with a character. *)
Lemma string_last s : s ≠ "" → ∃ s' c, s = s' +:+ String c "".
Proof.
  induction s as [|c s IH]; [done|]. intros _.
  destruct s as [|c' s].
  - by exists "", c.
  - destruct IH as (s' & d & Hs); [done|].
    exists (String c s'), d. simpl. by rewrite Hs.
Qed.

Lemma all_digits_last s c : all_digits (s +:+ String c "") → Py.is_digit c = true.
Proof.
  unfold all_digits. induction s as [|c' s IH]; simpl.
  - by intros [? _]%Forall_cons.
  - by intros [_ ?]%Forall_cons; apply IH.
Qed.

End Decimal.

(** ** The array part of a declared field type *)

Section ArraySuffix.

Lemma endswith_last s c :
  Py.endswith s (String c "") = true ↔ Py.slice s (Some (-1)) None = String c "".
Proof.
  unfold Py.endswith, Py.slice, Py.bound. cbn [String.length].
  destruct (Z.ltb_spec (-1) 0); [|lia].
  destruct (decide (String.length s = 0)%nat) as [Hs|Hs].
  { destruct s; [|done]. by split. }
  assert ((1 <=? String.length s)%nat = true) as -> by (apply Nat.leb_le; lia).
  replace (Z.to_nat (Z.max 0 (-1 + Z.of_nat (String.length s))))
    with (String.length s - 1)%nat by lia.
  replace (Z.to_nat (Z.of_nat (String.length s) - Z.max 0 (-1 + Z.of_nat (String.length s))))
    with 1%nat by lia.
  simpl. apply String.eqb_eq.
Qed.

Lemma array_suffix_scalar s :
  Py.endswith s "]" = false → array_suffix s = Ok (s, -1).
Proof.
  intros Hs. unfold array_suffix.
  destruct (decide (Py.slice s (Some (-1)) None = "]")) as [Hlast|]; [|done].
  apply endswith_last in Hlast. congruence.
Qed.

Lemma array_suffix_variable a : array_suffix (a +:+ "[]") = Ok (a, 0).
Proof.
  unfold array_suffix.
  assert (Py.slice (a +:+ "[]") (Some (-1)) None = "]") as ->.
  { replace (a +:+ "[]") with ((a +:+ "[") +:+ "]") by apply append_assoc.
    apply slice_last. }
  rewrite decide_True by done.
  rewrite slice_before_last, decide_True by done.
  by rewrite slice_drop_two.
Qed.

Lemma array_suffix_fixed a ds n :
  Py.find a "[" = -1 → all_digits ds → ds ≠ "" → Py.int ds = Some n →
  array_suffix (a +:+ "[" +:+ ds +:+ "]") = Ok (a, n).
Proof.
  intros Ha Hds Hne Hint. unfold array_suffix.
  set (s := a +:+ "[" +:+ ds +:+ "]").
  assert (Py.slice s (Some (-1)) None = "]") as ->.
  { replace s with ((a +:+ "[" +:+ ds) +:+ "]"); [apply slice_last|].
    unfold s. by rewrite !append_assoc. }
  rewrite decide_True by done.
  assert (Py.slice s (Some (-2)) (Some (-1)) ≠ "[") as Hdigit.
  { destruct (string_last ds Hne) as (ds' & d & Hd). rewrite Hd in Hds.
    apply all_digits_last in Hds.
    replace s with ((a +:+ String "[" ds') +:+ String d (String "]" "")).
    - rewrite slice_before_last. by intros [= ->].
    - unfold s. rewrite Hd. by rewrite !append_assoc. }
  rewrite decide_False by done.
  assert (Py.find s "[" = Z.of_nat (String.length a)) as -> by by apply find_first.
  assert (Py.slice s (Some (Z.of_nat (String.length a) + 1)) (Some (-1)) = ds) as ->
    by apply slice_between.
  rewrite Hint. simpl. unfold s. by rewrite slice_prefix.
Qed.

End ArraySuffix.

(** ** The typedef of one instance *)

Section GetTypedef.

Lemma fields_loop_spec instance slot_types names :
  ∀ i fn ft fal ex fn' ft' fal' ex',
    fields_loop instance slot_types i names fn ft fal ex = Ok (fn', ft', fal', ex') →
    fn' = fn ++ names ∧
    ∃ fts als exs,
      ft' = ft ++ fts ∧ fal' = fal ++ als ∧ ex' = ex ++ exs ∧
      length fts = length names ∧ length als = length names ∧ length exs = length names ∧
      ∀ k name, names !! k = Some name →
        ∃ raw base arity value qualified,
          slot_types !! (i + k)%nat = Some raw ∧
          array_suffix raw = Ok (base, arity) ∧
          PyVal.getattr instance name = Ok value ∧
          _type_name base value = Ok qualified ∧
          fts !! k = Some qualified ∧
          als !! k = Some arity ∧
          exs !! k = Some (PyVal.str (example_of base arity value)).
Proof.
  induction names as [|name names IH]; intros i fn ft fal ex fn' ft' fal' ex' H; simpl in H.
  - injection H as <- <- <- <-. split; [by rewrite app_nil_r|].
    exists [], [], []. rewrite !app_nil_r. repeat split; try done.
  - destruct (slot_types !! i) as [raw|] eqn:Hraw; [|done]. cbn in H.
    destruct (array_suffix raw) as [[base arity]|] eqn:Hsuffix; [|done]. cbn in H.
    destruct (PyVal.getattr instance name) as [value|] eqn:Hvalue; [|done]. cbn in H.
    destruct (_type_name base value) as [qualified|] eqn:Hq; [|done]. cbn in H.
    apply IH in H as (-> & fts & als & exs & -> & -> & -> & Hl1 & Hl2 & Hl3 & Hfields).
    split; [by rewrite <- app_assoc|].
    exists (qualified :: fts), (arity :: als),
      (PyVal.str (example_of base arity value) :: exs).
    rewrite <- !app_assoc. simpl. repeat split; try done; try lia.
    intros [|k] name' Hname'; simpl in Hname'.
    + injection Hname' as <-. exists raw, base, arity, value, qualified.
      by rewrite Nat.add_0_r.
    + destruct (Hfields k name' Hname') as (raw' & base' & arity' & value' & q' & Hk & ?).
      exists raw', base', arity', value', q'.
      by replace (i + S k)%nat with (S i + k)%nat by lia.
Qed.

Lemma consts_loop_lengths slots members :
  ∀ cn cv, length cn = length cv →
    length (consts_loop slots members cn cv).1 = length (consts_loop slots members cn cv).2.
Proof.
  induction members as [|[name value] members IH]; intros cn cv Hlen; simpl; [done|].
  destruct (decide _); apply IH; [|done].
  rewrite !length_app. simpl. lia.
Qed.

(** What [_get_typedef] returns for an instance with both attributes. *)
Lemma instance_typedef_inv instance td :
  _get_typedef instance = Ok (Some td) →
  ∃ slots slot_types,
    PyVal.slots_of instance = Some slots ∧
    PyVal.slot_types_of instance = Some slot_types ∧
    fields_loop instance slot_types 0 slots [] [] [] []
      = Ok (fieldnames td, fieldtypes td, fieldarraylen td, examples td) ∧
    consts_loop slots
      (filter (fun a => is_dunder a.1 = false)
         (PyVal.getmembers instance (fun a => negb (PyVal.isroutine a)))) [] []
      = (constnames td, constvalues td) ∧
    _type_name_from_instance instance = Ok (type td).
Proof.
  intros H. destruct instance as [| | | | | | | |m c [slots|] [slot_types|] attrs shown];
    try discriminate H.
  exists slots, slot_types. unfold _get_typedef in H.
  destruct (fields_loop _ _ _ _ _ _ _ _) as [[[[fn ft] fal] ex]|] eqn:Hfields; [|done].
  cbn in H.
  destruct (consts_loop _ _ _ _) as [cn cv] eqn:Hconsts.
  destruct (_type_name_from_instance _) as [t|] eqn:Ht; [|done].
  cbn in H. injection H as <-. simpl. done.
Qed.

(** The fields of a typedef, one by one. *)
Lemma instance_typedef_field instance td k name raw base arity value :
  _get_typedef instance = Ok (Some td) →
  declared_field instance k name raw base arity value →
  ∃ qualified,
    _type_name base value = Ok qualified ∧
    fieldnames td !! k = Some name ∧
    fieldtypes td !! k = Some qualified ∧
    fieldarraylen td !! k = Some arity ∧
    examples td !! k = Some (PyVal.str (example_of base arity value)).
Proof.
  intros (slots & slot_types & Hs & Hst & Hfields & _)%instance_typedef_inv
         (Hname & Hraw & Hsuffix & Hvalue).
  rewrite Hs in Hname. rewrite Hst in Hraw. simpl in Hname, Hraw.
  apply fields_loop_spec in Hfields
    as (Hfn & fts & als & exs & Hft & Hfal & Hex & _ & _ & _ & Hall).
  simpl in *. subst.
  destruct (Hall k name Hname) as (raw' & base' & arity' & value' & q & Hk & Hsuf' & Hv' & Hq & ?).
  simpl in Hk. rewrite Hraw in Hk. injection Hk as <-.
  rewrite Hsuffix in Hsuf'. rewrite Hvalue in Hv'. simplify_eq. by exists q.
Qed.

End GetTypedef.

(** ** Array arity (C4) *)

Section Arity.

(** C4, amended. The array part of a declared field type: a string that
    does not end in ["]"] is a scalar, arity [-1], and stays as it is; a
    string that ends in ["[]"] has arity [0] and loses these two
    characters; a string [a[N]], where [a] has no ["["] and [N] is the
    decimal rendering of a number, has that number as arity and base type
    [a]. The arity is the one that [_get_typedef] records for the
    field. *)
Theorem array_suffix_classification :
  (∀ s, Py.endswith s "]" = false → array_suffix s = Ok (s, -1)) ∧
  (∀ a, array_suffix (a +:+ "[]") = Ok (a, 0)) ∧
  (∀ a (n : N), Py.find a "[" = -1 →
     array_suffix (a +:+ "[" +:+ pretty n +:+ "]") = Ok (a, Z.of_N n)) ∧
  (∀ instance td k name raw base arity value,
     _get_typedef instance = Ok (Some td) →
     declared_field instance k name raw base arity value →
     fieldarraylen td !! k = Some arity).
Proof.
  split; [exact array_suffix_scalar|].
  split; [exact array_suffix_variable|].
  split.
  - intros a n Ha. destruct (pretty_digits n) as [Hd Hne].
    apply array_suffix_fixed; auto using int_pretty.
  - intros instance td k name raw base arity value Htd Hfield.
    destruct (instance_typedef_field _ _ _ _ _ _ _ _ Htd Hfield) as (q & _ & _ & _ & Hlen & _).
    exact Hlen.
Qed.

Lemma array_suffix_classification_witness :
  (Py.endswith "string" "]" = false ∧ array_suffix "string" = Ok ("string", -1)) ∧
  array_suffix "geometry_msgs/Point[]" = Ok ("geometry_msgs/Point", 0) ∧
  (Py.find "int32" "[" = -1 ∧ array_suffix "int32[3]" = Ok ("int32", 3)) ∧
  (_get_typedef Samples.track = Ok (Some Samples.track_typedef) ∧
   declared_field Samples.track 4 "ids" "int32[3]" "int32" 3
     (PyList [PyInt 0; PyInt 0; PyInt 0]) ∧
   fieldarraylen Samples.track_typedef !! 4%nat = Some 3).
Proof.
  destruct array_suffix_classification as (Hscalar & Hvariable & Hfixed & Hfield).
  split; [split; [reflexivity|apply Hscalar; reflexivity]|].
  split; [apply (Hvariable "geometry_msgs/Point")|].
  split; [split; [reflexivity|apply (Hfixed "int32" 3%N); reflexivity]|].
  assert (_get_typedef Samples.track = Ok (Some Samples.track_typedef)) as Htd
    by (vm_compute; reflexivity).
  assert (declared_field Samples.track 4 "ids" "int32[3]" "int32" 3
            (PyList [PyInt 0; PyInt 0; PyInt 0])) as Hdecl
    by (repeat split; vm_compute; reflexivity).
  split; [exact Htd|]. split; [exact Hdecl|].
  exact (Hfield _ _ _ _ _ _ _ _ Htd Hdecl).
Defined.

(** C4 as stated fails on a declared type with two bracket groups: it
    ends in ["[3]"], and instead of arity [3] the conversion of
    ["2][3"], the text after the first ["["], raises. It also fails on a
    string that ends in ["]"] and has no ["["]: there is no bracket
    suffix, and the text before the ["]"] is converted and gives the
    arity. *)
Lemma array_suffix_two_groups :
  (Py.endswith "int32[2][3]" "[3]" = true ∧
   Py.int "3" = Some 3 ∧
   array_suffix "int32[2][3]" = Raise ValueError) ∧
  (Py.find "7]" "[" = -1 ∧
   array_suffix "7]" = Ok ("7", 7)).
Proof. repeat split; vm_compute; reflexivity. Qed.

End Arity.

(** ** Examples (C2) *)

Section Examples.

(** C2, amended. The example of a field is ["[]"] when its arity is at
    least [0]; ["{}"] when it is a scalar whose base type is not atomic,
    the two special types included; and the stringified value of the
    field when it is a scalar of an atomic base type. *)
Theorem example_of_field instance td k name raw base arity value :
  _get_typedef instance = Ok (Some td) →
  declared_field instance k name raw base arity value →
  (0 ≤ arity → examples td !! k = Some "[]") ∧
  (arity < 0 → base ∉ atomics → examples td !! k = Some "{}") ∧
  (arity < 0 → base ∈ atomics → examples td !! k = Some (PyVal.str value)).
Proof.
  intros Htd Hfield.
  destruct (instance_typedef_field _ _ _ _ _ _ _ _ Htd Hfield) as (q & _ & _ & _ & _ & ->).
  unfold example_of. repeat split; intros.
  - by rewrite decide_True.
  - by rewrite decide_False, decide_True by (done || lia).
  - by rewrite decide_False, decide_False by (auto || lia).
Qed.

Lemma example_of_field_witness :
  _get_typedef Samples.track = Ok (Some Samples.track_typedef) ∧
  declared_field Samples.track 0 "count" "int32" "int32" (-1) (PyInt 7) ∧
  (-1 < 0 → "int32" ∈ atomics → examples Samples.track_typedef !! 0%nat = Some "7").
Proof.
  assert (_get_typedef Samples.track = Ok (Some Samples.track_typedef)) as Htd
    by (vm_compute; reflexivity).
  assert (declared_field Samples.track 0 "count" "int32" "int32" (-1) (PyInt 7)) as Hdecl
    by (repeat split; vm_compute; reflexivity).
  split; [exact Htd|]. split; [exact Hdecl|].
  exact (proj2 (proj2 (example_of_field _ _ _ _ _ _ _ _ Htd Hdecl))).
Defined.

(** C2 as stated fails on a scalar field of a special type: the example
    of the [time] field is ["{}"], and the stringified value is ["0"]. *)
Lemma example_of_time_field :
  _get_typedef Samples.track = Ok (Some Samples.track_typedef) ∧
  declared_field Samples.track 1 "stamp" "time" "time" (-1) Samples.time_zero ∧
  "time" ∈ specials ∧
  examples Samples.track_typedef !! 1%nat = Some "{}" ∧
  PyVal.str Samples.time_zero = "0".
Proof.
  split; [vm_compute; reflexivity|].
  split; [repeat split; vm_compute; reflexivity|].
  split; [apply list_elem_of_here|]. split; reflexivity.
Qed.

End Examples.

(** ** Qualified type names (C9) *)

Section TypeNames.

Lemma first_segment_split m :
  Py.find m "." ≠ -1 →
  Py.find (first_segment m) "." = -1 ∧
  ∃ rest, m = first_segment m +:+ String "." rest.
Proof.
  rewrite !find_absent. induction m as [|c m IH]; [done|].
  rewrite index_char_cons. cbn [first_segment].
  destruct (decide ("."%char = c)) as [<-|Hc].
  - intros _. split; [done|]. by exists m.
  - assert (Ascii.eqb c "." = false) as -> by (apply Ascii.eqb_neq; congruence).
    rewrite index_char_cons, decide_False by done.
    destruct (String.index 0 "." m) as [idx|] eqn:Hm; [|done].
    intros _. destruct IH as [Hseg [rest Hrest]]; [done|].
    split; [by rewrite Hseg|]. exists rest.
    change (String c m = String c (first_segment m +:+ String "." rest)).
    by f_equal.
Qed.

(** The name that [_type_name_from_instance] builds from a module name
    with a dot. *)
Lemma type_name_from_dotted_module instance m :
  PyVal.module_of instance = Ok m →
  Py.find m "." ≠ -1 →
  _type_name_from_instance instance
  = Ok (first_segment m +:+ "/" +:+ PyVal.class_name_of instance).
Proof.
  intros Hm [Hseg [rest Hrest]]%first_segment_split.
  unfold _type_name_from_instance. rewrite Hm. cbn.
  rewrite Hrest at 1 2. rewrite find_first by done.
  by rewrite slice_prefix_from_zero.
Qed.

(** C9, amended. The type recorded for a field is its base type when
    this is atomic or special, and when the value of the field is a
    list; otherwise, for a value whose module name has a dot, it is the
    first dot-separated segment of the module name, a slash and the name
    of the class of the value. The same rule on the whole instance gives
    the ['type'] of the typedef. *)
Theorem qualified_field_type instance td k name raw base arity value :
  _get_typedef instance = Ok (Some td) →
  declared_field instance k name raw base arity value →
  (base ∈ atomics ∨ base ∈ specials → fieldtypes td !! k = Some base) ∧
  (PyVal.is_list value = true → fieldtypes td !! k = Some base) ∧
  (∀ m, ¬ (base ∈ atomics ∨ base ∈ specials) → PyVal.is_list value = false →
     PyVal.module_of value = Ok m → Py.find m "." ≠ -1 →
     fieldtypes td !! k = Some (first_segment m +:+ "/" +:+ PyVal.class_name_of value)) ∧
  (∀ m, PyVal.module_of instance = Ok m → Py.find m "." ≠ -1 →
     type td = first_segment m +:+ "/" +:+ PyVal.class_name_of instance).
Proof.
  intros Htd Hfield.
  destruct (instance_typedef_field _ _ _ _ _ _ _ _ Htd Hfield) as (q & Hq & _ & -> & _).
  apply instance_typedef_inv in Htd as (_ & _ & _ & _ & _ & _ & Htype).
  unfold _type_name in Hq. repeat split.
  - intros Hbase. rewrite decide_True in Hq by done. congruence.
  - intros Hlist. destruct (decide _); [congruence|]. rewrite Hlist in Hq. congruence.
  - intros m Hbase Hlist Hm Hdot. rewrite decide_False, Hlist in Hq by done.
    rewrite (type_name_from_dotted_module _ m) in Hq by done. congruence.
  - intros m Hm Hdot.
    rewrite (type_name_from_dotted_module _ m) in Htype by done. congruence.
Qed.

Lemma qualified_field_type_witness :
  _get_typedef Samples.track = Ok (Some Samples.track_typedef) ∧
  declared_field Samples.track 2 "origin" "geometry_msgs/Point" "geometry_msgs/Point" (-1)
    Samples.point ∧
  fieldtypes Samples.track_typedef !! 2%nat = Some "geometry_msgs/Point" ∧
  type Samples.track_typedef = "nav_msgs/Track".
Proof.
  assert (_get_typedef Samples.track = Ok (Some Samples.track_typedef)) as Htd
    by (vm_compute; reflexivity).
  assert (declared_field Samples.track 2 "origin" "geometry_msgs/Point"
            "geometry_msgs/Point" (-1) Samples.point) as Hdecl
    by (repeat split; vm_compute; reflexivity).
  split; [exact Htd|]. split; [exact Hdecl|].
  destruct (qualified_field_type _ _ _ _ _ _ _ _ Htd Hdecl) as (_ & _ & Hvalue & Htype).
  split.
  - apply (Hvalue "geometry_msgs.msg._Point"); [|reflexivity|reflexivity|by vm_compute].
    intros [H|H]; vm_compute in H; by repeat (apply elem_of_cons in H as [H|H]; [done|]);
      apply elem_of_nil in H.
  - apply (Htype "nav_msgs.msg._Track"); [reflexivity|by vm_compute].
Defined.

(** C9 as stated fails for a class of a module whose name has no dot:
    the first segment of ["shapes"] is ["shapes"], and the names built
    are ["shape/Circle"] and ["shape/Drawing"]. *)
Lemma qualified_type_of_dotless_module :
  declared_field Samples.drawing 0 "outline" "shapes/Circle" "shapes/Circle" (-1)
    Samples.circle ∧
  PyVal.module_of Samples.circle = Ok "shapes" ∧
  first_segment "shapes" +:+ "/" +:+ PyVal.class_name_of Samples.circle = "shapes/Circle" ∧
  _get_typedef Samples.drawing
  = Ok (Some {| type := "shape/Drawing"; fieldnames := ["outline"];
                fieldtypes := ["shape/Circle"]; fieldarraylen := [-1];
                examples := ["{}"]; constnames := []; constvalues := [] |}).
Proof. repeat split; vm_compute; reflexivity. Qed.

End TypeNames.

(** ** Special and atomic types (C3, C8) *)

Section SpecialAtomic.

Variable loader : ros_loader.

(** C3. For ["time"] and for ["duration"], whatever the loader holds,
    [get_typedef] returns the fixed typedef: fields [secs] and [nsecs],
    both [int32], both scalar (arity [-1]), both with example ["0"], and
    no constants. *)
Theorem special_typedef_fixed :
  get_typedef loader "time"
  = Ok (Some {| type := "time"; fieldnames := ["secs"; "nsecs"];
                fieldtypes := ["int32"; "int32"]; fieldarraylen := [-1; -1];
                examples := ["0"; "0"]; constnames := []; constvalues := [] |}) ∧
  get_typedef loader "duration"
  = Ok (Some {| type := "duration"; fieldnames := ["secs"; "nsecs"];
                fieldtypes := ["int32"; "int32"]; fieldarraylen := [-1; -1];
                examples := ["0"; "0"]; constnames := []; constvalues := [] |}).
Proof. split; vm_compute; reflexivity. Qed.

Lemma not_atomic_special type_ : type_ ∈ atomics → type_ ∉ specials.
Proof.
  intros Ha Hs. unfold atomics, specials in *.
  repeat (apply elem_of_cons in Hs as [->|Hs];
          [by repeat (apply elem_of_cons in Ha as [Ha|Ha]; [done|]); apply elem_of_nil in Ha|]).
  by apply elem_of_nil in Hs.
Qed.

Lemma get_typedef_atomic type_ : type_ ∈ atomics → get_typedef loader type_ = Ok None.
Proof. intros Ha. unfold get_typedef. by rewrite decide_True. Qed.

Lemma instance_typedef_absent instance :
  PyVal.slots_of instance = None ∨ PyVal.slot_types_of instance = None →
  _get_typedef instance = Ok None.
Proof.
  destruct instance as [| | | | | | | |m c [slots|] [slot_types|] attrs shown];
    simpl; intros [H|H]; done.
Qed.

(** C8. [get_typedef] returns [None] for every atomic name; the
    expander takes this for a type without typedef, and returns an empty
    list without raising; and [_get_typedef] returns [None] for [None]
    and for an instance without [__slots__] or without [_slot_types]. *)
Theorem atomic_absent type_ :
  type_ ∈ atomics →
  get_typedef loader type_ = Ok None ∧
  (∀ fuel typesseen,
     _get_typedefs_recursive loader (S fuel) type_ typesseen
     = Some (Ok ([], if decide (type_ ∈ typesseen) then typesseen
                     else typesseen ++ [type_]))) ∧
  (∀ fuel typesseen,
     _get_subtypedefs_recursive loader fuel None typesseen = Some (Ok ([], typesseen))) ∧
  _get_typedef PyNone = Ok None ∧
  (∀ instance,
     PyVal.slots_of instance = None ∨ PyVal.slot_types_of instance = None →
     _get_typedef instance = Ok None).
Proof.
  intros Ha. split; [by apply get_typedef_atomic|].
  split.
  { intros fuel typesseen. simpl. destruct (decide (type_ ∈ typesseen)); [done|].
    by rewrite get_typedef_atomic. }
  split; [done|]. split; [done|]. exact instance_typedef_absent.
Qed.

End SpecialAtomic.

Lemma atomic_absent_witness :
  "float64" ∈ atomics ∧
  get_typedef Samples.nav_loader "float64" = Ok None ∧
  _get_typedefs_recursive Samples.nav_loader 1 "float64" ["geometry_msgs/Point"]
  = Some (Ok ([], ["geometry_msgs/Point"; "float64"])) ∧
  _get_typedef (PyFloat "0.0") = Ok None.
Proof.
  assert ("float64" ∈ atomics) as Ha by (apply (bool_decide_unpack _); vm_compute; exact I).
  destruct (atomic_absent Samples.nav_loader "float64" Ha) as (Hnone & Hexpand & _ & _ & Hinst).
  split; [exact Ha|]. split; [exact Hnone|].
  split; [exact (Hexpand 0%nat ["geometry_msgs/Point"])|].
  apply Hinst. left. reflexivity.
Defined.

(** ** The recursive expander *)

Section Expander.

Variable loader : ros_loader.

Implicit Types (typesseen new : list string) (l sub : list TypeDefDict).

Lemma visited_refl typesseen : visited loader typesseen [] typesseen.
Proof. exists []. rewrite app_nil_r. by repeat split. Qed.

Lemma visited_trans typesseen1 typesseen2 typesseen3 l1 l2 :
  visited loader typesseen1 l1 typesseen2 → visited loader typesseen2 l2 typesseen3 →
  visited loader typesseen1 (l1 ++ l2) typesseen3.
Proof.
  intros (new1 & -> & Hnd1 & Hl1) (new2 & -> & Hnd2 & Hl2).
  exists (new1 ++ new2). rewrite app_assoc, filter_app.
  repeat split; [auto|by apply Forall2_app].
Qed.

Lemma visited_one typesseen type_ :
  type_ ∉ typesseen →
  visited loader typesseen
    (match get_typedef loader type_ with Ok (Some td) => [td] | _ => [] end)
    (typesseen ++ [type_]).
Proof.
  intros Hnew. exists [type_]. split; [done|]. split.
  - intros Hnd. apply NoDup_app. repeat split; [done| |apply NoDup_singleton].
    intros x Hx ->%list_elem_of_singleton. done.
  - rewrite filter_cons, filter_nil. unfold has_typedef.
    destruct (get_typedef loader type_) as [[td|]|] eqn:Htd.
    + rewrite decide_True by done. by repeat constructor.
    + by rewrite decide_False.
    + by rewrite decide_False.
Qed.

Lemma subtypedefs_loop_visited recursive fieldtypes :
  (∀ type_ typesseen sub typesseen',
     recursive type_ typesseen = Some (Ok (sub, typesseen')) →
     visited loader typesseen sub typesseen') →
  ∀ typedefs typesseen l typesseen',
    subtypedefs_loop recursive fieldtypes typedefs typesseen = Some (Ok (l, typesseen')) →
    ∃ subs, l = typedefs ++ subs ∧ visited loader typesseen subs typesseen'.
Proof.
  intros Hrec. induction fieldtypes as [|fieldtype fieldtypes IH];
    intros typedefs typesseen l typesseen' H; simpl in H.
  - injection H as <- <-. exists []. by rewrite app_nil_r; split; [|apply visited_refl].
  - destruct (recursive fieldtype typesseen) as [[[sub typesseen1]|]|] eqn:Hcall; try done.
    apply IH in H as (subs & -> & Hsubs).
    exists (sub ++ subs). split; [by rewrite app_assoc|].
    eapply visited_trans; [exact (Hrec _ _ _ _ Hcall)|done].
Qed.

Lemma typedefs_recursive_visited fuel :
  ∀ type_ typesseen l typesseen',
    _get_typedefs_recursive loader fuel type_ typesseen = Some (Ok (l, typesseen')) →
    visited loader typesseen l typesseen'.
Proof.
  induction fuel as [|fuel IH]; intros type_ typesseen l typesseen' H; simpl in H; [done|].
  destruct (decide (type_ ∈ typesseen)) as [Hseen|Hnew].
  { injection H as <- <-. apply visited_refl. }
  pose proof (visited_one typesseen type_ Hnew) as Hone.
  destruct (get_typedef loader type_) as [[td|]|] eqn:Htd; [| |done]; simpl in H.
  - apply (subtypedefs_loop_visited _ _ IH) in H as (subs & -> & Hsubs).
    by eapply visited_trans.
  - by injection H as <- <-.
Qed.

Lemma subtypedefs_recursive_visited fuel td typesseen l typesseen' :
  _get_subtypedefs_recursive loader fuel (Some td) typesseen = Some (Ok (l, typesseen')) →
  ∃ subs, l = td :: subs ∧ visited loader typesseen subs typesseen'.
Proof.
  intros H. unfold _get_subtypedefs_recursive in H. simpl in H.
  by apply (subtypedefs_loop_visited _ _ (typedefs_recursive_visited fuel)) in H.
Qed.

Lemma returned_inv {A B} (r : option (res (A * B))) a :
  returned r = Some (Ok a) → ∃ b, r = Some (Ok (a, b)).
Proof. destruct r as [[[a' b]|]|]; intros [=]; subst. by exists b. Qed.

Lemma visited_typedefs typesseen l typesseen' :
  visited loader typesseen l typesseen' →
  Forall (fun td => ∃ type_, get_typedef loader type_ = Ok (Some td)) l.
Proof.
  intros (new & _ & _ & Hl). induction Hl; constructor; eauto.
Qed.

End Expander.

(** ** Parallel lists (C7) *)

Section Parallel.

Variable loader : ros_loader.

Lemma instance_typedef_parallel instance td :
  _get_typedef instance = Ok (Some td) → parallel td.
Proof.
  intros (slots & slot_types & _ & _ & Hfields & Hconsts & _)%instance_typedef_inv.
  apply fields_loop_spec in Hfields
    as (Hfn & fts & als & exs & Hft & Hfal & Hex & Hl1 & Hl2 & Hl3 & _).
  simpl in *. unfold parallel. rewrite Hfn, Hft, Hfal, Hex.
  repeat split; try lia.
  pose proof (consts_loop_lengths slots
    (filter (fun a => is_dunder a.1 = false)
       (PyVal.getmembers instance (fun a => negb (PyVal.isroutine a)))) [] [] eq_refl) as Hlen.
  by rewrite Hconsts in Hlen.
Qed.

Lemma special_typedef_parallel type_ : parallel (_get_special_typedef type_).
Proof. unfold _get_special_typedef. by destruct (decide _). Qed.

Lemma get_typedef_parallel type_ td :
  get_typedef loader type_ = Ok (Some td) → parallel td.
Proof.
  unfold get_typedef. intros H.
  destruct (decide (type_ ∈ atomics)); [done|].
  destruct (decide (type_ ∈ specials)).
  - injection H as <-. apply special_typedef_parallel.
  - destruct (get_message_instance loader type_) as [instance|]; [|done].
    by apply (instance_typedef_parallel instance).
Qed.

Lemma request_typedef_parallel servicetype td :
  get_service_request_typedef loader servicetype = Ok (Some td) → parallel td.
Proof.
  unfold get_service_request_typedef. intros H.
  destruct (get_service_request_instance loader servicetype) as [instance|]; [|done].
  by apply (instance_typedef_parallel instance).
Qed.

Lemma response_typedef_parallel servicetype td :
  get_service_response_typedef loader servicetype = Ok (Some td) → parallel td.
Proof.
  unfold get_service_response_typedef. intros H.
  destruct (get_service_response_instance loader servicetype) as [instance|]; [|done].
  by apply (instance_typedef_parallel instance).
Qed.

Lemma visited_parallel typesseen l typesseen' td :
  visited loader typesseen l typesseen' → td ∈ l → parallel td.
Proof.
  intros Hl%visited_typedefs Htd.
  rewrite Forall_forall in Hl. destruct (Hl td Htd) as [type_ Htype].
  by apply (get_typedef_parallel type_).
Qed.

Lemma subtypedefs_parallel typedef l td :
  (∀ td0, typedef = Some td0 → parallel td0) →
  returned (_get_subtypedefs_recursive loader (depth_bound loader) typedef []) = Some (Ok l) →
  td ∈ l → parallel td.
Proof.
  intros Hroot [typesseen H]%returned_inv Htd.
  destruct typedef as [td0|].
  - apply subtypedefs_recursive_visited in H as (subs & -> & Hsubs).
    apply elem_of_cons in Htd as [->|Htd]; [by apply Hroot|].
    by apply (visited_parallel _ _ _ _ Hsubs).
  - injection H as <- <-. by apply elem_of_nil in Htd.
Qed.

(** C7. In every typedef that a public function returns, alone or in
    its list, the lists of field names, field types, array lengths and
    examples have one length, and the lists of constant names and
    constant values have one length. *)
Theorem parallel_lists td : produced loader td → parallel td.
Proof.
  intros [type_ H|servicetype H|servicetype H|type_ l H Htd
         |servicetype l H Htd|servicetype l H Htd].
  - by apply (get_typedef_parallel type_).
  - by apply (request_typedef_parallel servicetype).
  - by apply (response_typedef_parallel servicetype).
  - apply returned_inv in H as [typesseen H].
    apply typedefs_recursive_visited in H. by apply (visited_parallel _ _ _ _ H).
  - unfold get_service_request_typedef_recursive in H.
    destruct (get_service_request_typedef loader servicetype) as [typedef|] eqn:Hroot;
      [|done].
    apply (subtypedefs_parallel typedef l); [|done..].
    intros td0 ->. by apply (request_typedef_parallel servicetype).
  - unfold get_service_response_typedef_recursive in H.
    destruct (get_service_response_typedef loader servicetype) as [typedef|] eqn:Hroot;
      [|done].
    apply (subtypedefs_parallel typedef l); [|done..].
    intros td0 ->. by apply (response_typedef_parallel servicetype).
Qed.

End Parallel.

Lemma parallel_lists_witness :
  produced Samples.nav_loader Samples.track_typedef ∧ parallel Samples.track_typedef.
Proof.
  assert (produced Samples.nav_loader Samples.track_typedef) as Hproduced.
  { apply (produced_response_recursive _ _ "nav_msgs/GetTrack"
             Samples.track_closure).
    - vm_compute. reflexivity.
    - apply list_elem_of_here. }
  split; [exact Hproduced|]. exact (parallel_lists _ _ Hproduced).
Defined.

(** ** Constants (C10) *)

Section Constants.

#[local] Instance member_le_trans : Transitive PyVal.member_le.
Proof. intros p q r. unfold PyVal.member_le. apply transitivity. Qed.

#[local] Instance member_le_total : Total PyVal.member_le.
Proof. intros p q. unfold PyVal.member_le. apply total, _. Qed.

Lemma StronglySorted_filter {A} (R : relation A) (P : A → Prop) `{∀ x, Decision (P x)} l :
  StronglySorted R l → StronglySorted R (filter P l).
Proof.
  induction 1 as [|x l Hl IH Hx]; [constructor|].
  rewrite filter_cons. destruct (decide (P x)); [|done].
  constructor; [done|]. apply Forall_forall. intros y [_ Hy]%list_elem_of_filter.
  rewrite Forall_forall in Hx. auto.
Qed.

(** The loop keeps, in order, the members that are neither bookkeeping
    nor fields. *)
Lemma consts_loop_filter slots members :
  ∀ cn cv,
    consts_loop slots members cn cv
    = (cn ++ (filter (fun a => (a.1 ∉ bookkeeping) ∧ (a.1 ∉ slots)) members).*1,
       cv ++ ((PyVal.str ∘ snd) <$>
                filter (fun a => (a.1 ∉ bookkeeping) ∧ (a.1 ∉ slots)) members)).
Proof.
  induction members as [|[name value] members IH]; intros cn cv; simpl.
  { by rewrite !app_nil_r. }
  rewrite filter_cons. simpl. destruct (decide _).
  - rewrite IH. simpl. by rewrite <- !app_assoc.
  - apply IH.
Qed.

Lemma constants_of_typedef instance td :
  _get_typedef instance = Ok (Some td) →
  constnames td = (constants_of instance (fieldnames td)).*1 ∧
  constvalues td = (PyVal.str ∘ snd) <$> constants_of instance (fieldnames td).
Proof.
  intros (slots & slot_types & _ & _ & Hfields & Hconsts & _)%instance_typedef_inv.
  apply fields_loop_spec in Hfields as (Hfn & _). simpl in Hfn. subst slots.
  rewrite consts_loop_filter in Hconsts. simpl in Hconsts.
  by injection Hconsts as <- <-.
Qed.

Lemma elem_of_constants_of instance slots name value :
  (name, value) ∈ constants_of instance slots ↔
  PyVal.attrs_of instance !! name = Some value ∧ PyVal.isroutine value = false ∧
  is_dunder name = false ∧ (name ∉ bookkeeping) ∧ (name ∉ slots).
Proof.
  unfold constants_of, PyVal.getmembers.
  rewrite !list_elem_of_filter, merge_sort_Permutation, list_elem_of_filter,
    elem_of_map_to_list. simpl.
  rewrite negb_true_iff. tauto.
Qed.

Lemma constants_of_sorted instance slots :
  StronglySorted PyVal.member_le (constants_of instance slots) ∧
  NoDup (constants_of instance slots).*1.
Proof.
  unfold constants_of, PyVal.getmembers. split.
  - do 2 apply StronglySorted_filter. apply StronglySorted_merge_sort; apply _.
  - set (members := filter _ (map_to_list _)).
    assert (NoDup members.*1) as Hmembers.
    { apply (sublist_NoDup _ _ (NoDup_fst_map_to_list (PyVal.attrs_of instance))).
      apply fmap_sublist, sublist_filter. }
    rewrite <- (merge_sort_Permutation PyVal.member_le members) in Hmembers.
    apply (sublist_NoDup _ _ Hmembers).
    apply fmap_sublist. etrans; apply sublist_filter.
Qed.

(** C10, amended. The constant names of a typedef are in ascending
    order, none twice; they are the names of the attributes of the
    instance whose value is not a routine ([inspect.isroutine], line
    147), that are not dunder names, not bookkeeping names and not field
    names; and the constant values are, position by position, the
    stringified values of these attributes. *)
Theorem constants_sorted_and_filtered instance td :
  _get_typedef instance = Ok (Some td) →
  StronglySorted String.le (constnames td) ∧
  NoDup (constnames td) ∧
  (∀ name,
     name ∈ constnames td ↔
     ∃ value,
       PyVal.attrs_of instance !! name = Some value ∧ PyVal.isroutine value = false ∧
       is_dunder name = false ∧ (name ∉ bookkeeping) ∧ (name ∉ fieldnames td)) ∧
  (∀ j name,
     constnames td !! j = Some name →
     ∃ value,
       PyVal.attrs_of instance !! name = Some value ∧
       constvalues td !! j = Some (PyVal.str value)).
Proof.
  intros [Hnames Hvalues]%constants_of_typedef.
  destruct (constants_of_sorted instance (fieldnames td)) as [Hsorted Hnodup].
  rewrite Hnames, Hvalues. repeat split.
  - by apply (StronglySorted_fmap _ PyVal.member_le).
  - done.
  - intros [[name' value] [-> Hin]]%list_elem_of_fmap. exists value.
    by apply elem_of_constants_of.
  - intros [value Hvalue]. apply list_elem_of_fmap. exists (name, value).
    split; [done|]. by apply elem_of_constants_of.
  - intros j name Hj. rewrite list_lookup_fmap in Hj.
    destruct (constants_of instance (fieldnames td) !! j) as [[name' value]|] eqn:Hlookup;
      [|done].
    injection Hj as <-. exists value. split.
    + apply list_elem_of_lookup_2 in Hlookup. by apply elem_of_constants_of in Hlookup as [? _].
    + by rewrite list_lookup_fmap, Hlookup.
Qed.

Lemma constants_sorted_and_filtered_witness :
  _get_typedef Samples.track = Ok (Some Samples.track_typedef) ∧
  constnames Samples.track_typedef = ["CLOSED"; "OPEN"] ∧
  StronglySorted String.le (constnames Samples.track_typedef) ∧
  ("OPEN" ∈ constnames Samples.track_typedef ↔
   ∃ value,
     PyVal.attrs_of Samples.track !! "OPEN" = Some value ∧ PyVal.isroutine value = false ∧
     is_dunder "OPEN" = false ∧ ("OPEN" ∉ bookkeeping) ∧
     ("OPEN" ∉ fieldnames Samples.track_typedef)).
Proof.
  assert (_get_typedef Samples.track = Ok (Some Samples.track_typedef)) as Htd
    by (vm_compute; reflexivity).
  destruct (constants_sorted_and_filtered _ _ Htd) as (Hsorted & _ & Hnames & _).
  split; [exact Htd|]. split; [reflexivity|]. split; [exact Hsorted|]. exact (Hnames "OPEN").
Defined.

(** C10 as stated fails for an attribute that can be called and is no
    routine: the class [Factory] of [Samples.plant] is among the
    constants. *)
Lemma class_attribute_listed_as_constant :
  PyVal.attrs_of Samples.plant !! "Factory" = Some Samples.factory ∧
  PyVal.callable Samples.factory = true ∧
  PyVal.isroutine Samples.factory = false ∧
  _get_typedef Samples.plant = Ok (Some Samples.plant_typedef) ∧
  constnames Samples.plant_typedef = ["Factory"] ∧
  constvalues Samples.plant_typedef = [PyVal.str Samples.factory].
Proof.
  split; [by vm_compute|]. split; [reflexivity|]. split; [reflexivity|].
  split; [vm_compute; reflexivity|]. split; reflexivity.
Qed.

End Constants.

(** ** Termination (C5) *)

Section Termination.

Variable loader : ros_loader.

Lemma get_typedef_expandable type_ td :
  get_typedef loader type_ = Ok (Some td) → type_ ∈ expandable loader.
Proof.
  unfold get_typedef, expandable, get_message_instance. intros H.
  destruct (decide (type_ ∈ atomics)); [done|].
  destruct (decide (type_ ∈ specials)) as [Hs|_].
  - apply elem_of_union_r. by apply elem_of_list_to_set.
  - apply elem_of_union_l, elem_of_dom.
    by destruct (message_instances loader !! type_).
Qed.

Lemma unseen_app typesseen new :
  (unseen loader (typesseen ++ new) ≤ unseen loader typesseen)%nat.
Proof.
  unfold unseen. apply subseteq_size. rewrite list_to_set_app_L. set_solver.
Qed.

Lemma unseen_new typesseen type_ :
  type_ ∈ expandable loader → type_ ∉ typesseen →
  (unseen loader (typesseen ++ [type_]) < unseen loader typesseen)%nat.
Proof.
  intros Hexp Hnew. unfold unseen. apply subset_size.
  rewrite list_to_set_app_L. split; [set_solver|].
  intros Hsub. assert (type_ ∈ expandable loader ∖ list_to_set (C:=gset string) typesseen)
    as Hin by set_solver.
  apply Hsub in Hin. set_solver.
Qed.

(** With more fuel than there are unseen names that can have a typedef,
    a call returns. *)
Lemma subtypedefs_loop_returns recursive fuel fieldtypes :
  (∀ type_ typesseen,
     (unseen loader typesseen < fuel)%nat → is_Some (recursive type_ typesseen)) →
  (∀ type_ typesseen sub typesseen',
     recursive type_ typesseen = Some (Ok (sub, typesseen')) →
     visited loader typesseen sub typesseen') →
  ∀ typedefs typesseen,
    (unseen loader typesseen < fuel)%nat →
    is_Some (subtypedefs_loop recursive fieldtypes typedefs typesseen).
Proof.
  intros Hreturns Hvisited.
  induction fieldtypes as [|fieldtype fieldtypes IH]; intros typedefs typesseen Hfuel; simpl.
  { by eexists. }
  destruct (Hreturns fieldtype typesseen Hfuel) as [[[sub typesseen']|e] Hcall];
    rewrite Hcall; [|by eexists].
  apply IH. apply Hvisited in Hcall as (new & -> & _).
  pose proof (unseen_app typesseen new). lia.
Qed.

Lemma typedefs_recursive_returns fuel :
  ∀ type_ typesseen,
    (unseen loader typesseen < fuel)%nat →
    is_Some (_get_typedefs_recursive loader fuel type_ typesseen).
Proof.
  induction fuel as [|fuel IH]; intros type_ typesseen Hfuel; [lia|]. simpl.
  destruct (decide (type_ ∈ typesseen)) as [Hseen|Hnew]; [by eexists|].
  destruct (get_typedef loader type_) as [[td|]|] eqn:Htd; simpl; try by eexists.
  apply (subtypedefs_loop_returns _ fuel); [done|apply typedefs_recursive_visited|].
  apply get_typedef_expandable in Htd.
  pose proof (unseen_new typesseen type_ Htd Hnew). lia.
Qed.

(** More fuel does not change what a call returns. *)
Lemma subtypedefs_loop_agree recursive1 recursive2 fieldtypes :
  (∀ type_ typesseen r,
     recursive1 type_ typesseen = Some r → recursive2 type_ typesseen = Some r) →
  ∀ typedefs typesseen r,
    subtypedefs_loop recursive1 fieldtypes typedefs typesseen = Some r →
    subtypedefs_loop recursive2 fieldtypes typedefs typesseen = Some r.
Proof.
  intros Hagree. induction fieldtypes as [|fieldtype fieldtypes IH];
    intros typedefs typesseen r H; simpl in *; [done|].
  destruct (recursive1 fieldtype typesseen) as [r1|] eqn:Hcall; [|done].
  rewrite (Hagree _ _ _ Hcall). destruct r1 as [[sub typesseen']|e]; [|done].
  by apply IH.
Qed.

Lemma typedefs_recursive_fuel fuel :
  ∀ fuel' type_ typesseen r,
    (fuel ≤ fuel')%nat →
    _get_typedefs_recursive loader fuel type_ typesseen = Some r →
    _get_typedefs_recursive loader fuel' type_ typesseen = Some r.
Proof.
  induction fuel as [|fuel IH]; intros fuel' type_ typesseen r Hle H; [done|].
  destruct fuel' as [|fuel']; [lia|]. simpl in *.
  destruct (decide (type_ ∈ typesseen)); [done|].
  destruct (get_typedef loader type_) as [[td|]|]; try done. simpl in *.
  apply (subtypedefs_loop_agree (_get_typedefs_recursive loader fuel)); [|done].
  intros ???. apply IH. lia.
Qed.

Lemma unseen_bound typesseen : (unseen loader typesseen < depth_bound loader)%nat.
Proof.
  unfold unseen, depth_bound, expandable.
  set (known := dom (message_instances loader)).
  set (special := list_to_set (C:=gset string) specials).
  assert (size ((known ∪ special) ∖ list_to_set typesseen) ≤ size (known ∪ special))%nat
    by (apply subseteq_size; set_solver).
  assert (size (special ∖ known) ≤ size special)%nat by (apply subseteq_size; set_solver).
  assert (size special = 2%nat) by (by vm_compute).
  assert (size known = size (message_instances loader)) by apply size_dom.
  pose proof (size_union_alt known special). lia.
Qed.

Lemma typedefs_recursive_grows fuel type_ typesseen l typesseen' :
  _get_typedefs_recursive loader fuel type_ typesseen = Some (Ok (l, typesseen')) →
  ∃ new, typesseen' = typesseen ++ new ∧
         (type_ ∈ typesseen → new = []) ∧
         (type_ ∉ typesseen → ∃ rest, new = type_ :: rest).
Proof.
  destruct fuel as [|fuel]; [done|]. simpl.
  destruct (decide (type_ ∈ typesseen)) as [Hseen|Hnew].
  { intros [= <- <-]. exists []. by rewrite app_nil_r. }
  destruct (get_typedef loader type_) as [[td|]|]; [| |done]; simpl; intros H.
  - apply (subtypedefs_loop_visited loader _ _ (typedefs_recursive_visited loader fuel)) in H
      as (subs & _ & new & -> & _).
    exists (type_ :: new). rewrite <- app_assoc. split; [done|]. split; [done|by eexists].
  - injection H as <- <-. exists [type_]. split; [done|]. split; [done|by eexists].
Qed.

Lemma self_reference type_ td :
  get_typedef loader type_ = Ok (Some td) → fieldtypes td = [type_] →
  get_typedef_recursive loader type_ = Some (Ok [td]).
Proof.
  intros Htd Hfields. unfold get_typedef_recursive, depth_bound.
  cbn [_get_typedefs_recursive].
  destruct (decide (type_ ∈ [])) as [Hin|_]; [by apply elem_of_nil in Hin|].
  rewrite Htd. cbn [subtypedefs]. rewrite Hfields.
  cbn [subtypedefs_loop _get_typedefs_recursive].
  destruct (decide (type_ ∈ [] ++ [type_])) as [_|Hout]; [done|].
  destruct Hout. apply list_elem_of_here.
Qed.

Lemma mutual_reference type_a type_b tda tdb :
  type_a ≠ type_b →
  get_typedef loader type_a = Ok (Some tda) → fieldtypes tda = [type_b] →
  get_typedef loader type_b = Ok (Some tdb) → fieldtypes tdb = [type_a] →
  get_typedef_recursive loader type_a = Some (Ok [tda; tdb]).
Proof.
  intros Hne Ha Hfa Hb Hfb. unfold get_typedef_recursive, depth_bound.
  cbn [_get_typedefs_recursive].
  destruct (decide (type_a ∈ [])) as [Hin|_]; [by apply elem_of_nil in Hin|].
  rewrite Ha. cbn [subtypedefs]. rewrite Hfa.
  cbn [subtypedefs_loop _get_typedefs_recursive].
  destruct (decide (type_b ∈ [] ++ [type_a])) as [Hin|_].
  { apply list_elem_of_singleton in Hin. congruence. }
  rewrite Hb. cbn [subtypedefs]. rewrite Hfb.
  cbn [subtypedefs_loop _get_typedefs_recursive].
  destruct (decide (type_a ∈ ([] ++ [type_a]) ++ [type_b])) as [_|Hout]; [done|].
  destruct Hout. apply list_elem_of_here.
Qed.

Lemma returned_is_Some {A B} (r : option (res (A * B))) : is_Some r → is_Some (returned r).
Proof. intros [[[a b]|e] ->]; by eexists. Qed.

(** C5. With more fuel than there are names that can have a typedef and
    are not yet in the list of types seen, a call of the expander
    returns, and more fuel gives the same result: the depth of the
    recursion is at most that number, which is at most the number of
    message types of the loader plus two. The three recursive entry
    points return. A call that returns has left the list of types seen
    as it was when the type was in it, and has otherwise appended the
    type and possibly more. A type whose only field has its own type has
    a closure of one typedef, and two types that refer to each other have
    a closure of two. *)
Theorem expansion_terminates :
  (∀ fuel type_ typesseen,
     (unseen loader typesseen < fuel)%nat →
     ∃ r, _get_typedefs_recursive loader fuel type_ typesseen = Some r ∧
          ∀ fuel', (fuel ≤ fuel')%nat →
                   _get_typedefs_recursive loader fuel' type_ typesseen = Some r) ∧
  (∀ typesseen,
     (unseen loader typesseen ≤ size (message_instances loader) + 2)%nat ∧
     (unseen loader typesseen < depth_bound loader)%nat) ∧
  (∀ type_, is_Some (get_typedef_recursive loader type_)) ∧
  (∀ servicetype, is_Some (get_service_request_typedef_recursive loader servicetype)) ∧
  (∀ servicetype, is_Some (get_service_response_typedef_recursive loader servicetype)) ∧
  (∀ fuel type_ typesseen l typesseen',
     _get_typedefs_recursive loader fuel type_ typesseen = Some (Ok (l, typesseen')) →
     ∃ new, typesseen' = typesseen ++ new ∧
            (type_ ∈ typesseen → new = []) ∧
            (type_ ∉ typesseen → ∃ rest, new = type_ :: rest)) ∧
  (∀ type_ td,
     get_typedef loader type_ = Ok (Some td) → fieldtypes td = [type_] →
     get_typedef_recursive loader type_ = Some (Ok [td])) ∧
  (∀ type_a type_b tda tdb,
     type_a ≠ type_b →
     get_typedef loader type_a = Ok (Some tda) → fieldtypes tda = [type_b] →
     get_typedef loader type_b = Ok (Some tdb) → fieldtypes tdb = [type_a] →
     get_typedef_recursive loader type_a = Some (Ok [tda; tdb])).
Proof.
  split.
  { intros fuel type_ typesseen Hfuel.
    destruct (typedefs_recursive_returns fuel type_ typesseen Hfuel) as [r Hr].
    exists r. split; [done|]. intros fuel' Hle. by apply (typedefs_recursive_fuel fuel). }
  split.
  { intros typesseen. pose proof (unseen_bound typesseen) as Hbound.
    unfold depth_bound in *. lia. }
  split.
  { intros type_. apply returned_is_Some, typedefs_recursive_returns, unseen_bound. }
  split.
  { intros servicetype. unfold get_service_request_typedef_recursive.
    destruct (get_service_request_typedef loader servicetype) as [[td|]|]; try by eexists.
    apply returned_is_Some. unfold _get_subtypedefs_recursive, subtypedefs.
    apply (subtypedefs_loop_returns _ (depth_bound loader));
      [apply typedefs_recursive_returns|apply typedefs_recursive_visited|apply unseen_bound]. }
  split.
  { intros servicetype. unfold get_service_response_typedef_recursive.
    destruct (get_service_response_typedef loader servicetype) as [[td|]|]; try by eexists.
    apply returned_is_Some. unfold _get_subtypedefs_recursive, subtypedefs.
    apply (subtypedefs_loop_returns _ (depth_bound loader));
      [apply typedefs_recursive_returns|apply typedefs_recursive_visited|apply unseen_bound]. }
  split; [exact typedefs_recursive_grows|].
  split; [exact self_reference|exact mutual_reference].
Qed.

End Termination.

Lemma expansion_terminates_witness :
  ((unseen Samples.graph_loader [] < 7)%nat ∧
   ∃ r, _get_typedefs_recursive Samples.graph_loader 7 "graph_msgs/Graph" [] = Some r ∧
        ∀ fuel', (7 ≤ fuel')%nat →
                 _get_typedefs_recursive Samples.graph_loader fuel' "graph_msgs/Graph" []
                 = Some r) ∧
  (get_typedef Samples.graph_loader "graph_msgs/Node" = Ok (Some Samples.node_typedef) ∧
   fieldtypes Samples.node_typedef = ["graph_msgs/Node"] ∧
   get_typedef_recursive Samples.graph_loader "graph_msgs/Node"
   = Some (Ok [Samples.node_typedef])) ∧
  ("graph_msgs/Graph" ≠ "graph_msgs/Edge" ∧
   get_typedef Samples.graph_loader "graph_msgs/Graph" = Ok (Some Samples.graph_typedef) ∧
   fieldtypes Samples.graph_typedef = ["graph_msgs/Edge"] ∧
   get_typedef Samples.graph_loader "graph_msgs/Edge" = Ok (Some Samples.edge_typedef) ∧
   fieldtypes Samples.edge_typedef = ["graph_msgs/Graph"] ∧
   get_typedef_recursive Samples.graph_loader "graph_msgs/Graph"
   = Some (Ok [Samples.graph_typedef; Samples.edge_typedef])).
Proof.
  destruct (expansion_terminates Samples.graph_loader)
    as (Hreturns & _ & _ & _ & _ & _ & Hself & Hmutual).
  assert (unseen Samples.graph_loader [] < 7)%nat as Hfuel by (vm_compute; lia).
  assert (get_typedef Samples.graph_loader "graph_msgs/Node" = Ok (Some Samples.node_typedef))
    as Hnode by (vm_compute; reflexivity).
  assert (get_typedef Samples.graph_loader "graph_msgs/Graph" = Ok (Some Samples.graph_typedef))
    as Hgraph by (vm_compute; reflexivity).
  assert (get_typedef Samples.graph_loader "graph_msgs/Edge" = Ok (Some Samples.edge_typedef))
    as Hedge by (vm_compute; reflexivity).
  assert ("graph_msgs/Graph" ≠ "graph_msgs/Edge") as Hne by discriminate.
  split; [split; [exact Hfuel|exact (Hreturns 7%nat "graph_msgs/Graph" [] Hfuel)]|].
  split.
  - split; [exact Hnode|]. split; [reflexivity|]. exact (Hself _ _ Hnode eq_refl).
  - split; [exact Hne|]. split; [exact Hgraph|]. split; [reflexivity|].
    split; [exact Hedge|]. split; [reflexivity|].
    exact (Hmutual _ _ _ _ Hne Hgraph eq_refl Hedge eq_refl).
Defined.

(** ** Order of the closure (C6) *)

Section Order.

Variable loader : ros_loader.

Lemma subtypedefs_loop_expansions recursive fieldtypes :
  (∀ type_ typesseen sub typesseen',
     recursive type_ typesseen = Some (Ok (sub, typesseen')) →
     expansion loader type_ typesseen sub typesseen') →
  ∀ typedefs typesseen l typesseen',
    subtypedefs_loop recursive fieldtypes typedefs typesseen = Some (Ok (l, typesseen')) →
    ∃ rest, l = typedefs ++ rest ∧ expansions loader fieldtypes typesseen rest typesseen'.
Proof.
  intros Hrec. induction fieldtypes as [|fieldtype fieldtypes IH];
    intros typedefs typesseen l typesseen' H; simpl in H.
  - injection H as <- <-. exists []. rewrite app_nil_r. split; [done|constructor].
  - destruct (recursive fieldtype typesseen) as [[[sub typesseen1]|]|] eqn:Hcall; try done.
    apply IH in H as (rest & -> & Hrest).
    exists (sub ++ rest). split; [by rewrite app_assoc|].
    econstructor; [exact (Hrec _ _ _ _ Hcall)|done].
Qed.

Lemma typedefs_recursive_expansion fuel :
  ∀ type_ typesseen l typesseen',
    _get_typedefs_recursive loader fuel type_ typesseen = Some (Ok (l, typesseen')) →
    expansion loader type_ typesseen l typesseen'.
Proof.
  induction fuel as [|fuel IH]; intros type_ typesseen l typesseen' H; simpl in H; [done|].
  destruct (decide (type_ ∈ typesseen)) as [Hseen|Hnew].
  { injection H as <- <-. by constructor. }
  destruct (get_typedef loader type_) as [[td|]|] eqn:Htd; [| |done]; simpl in H.
  - apply (subtypedefs_loop_expansions _ _ IH) in H as (rest & -> & Hrest).
    by apply expansion_typedef.
  - injection H as <- <-. by constructor.
Qed.

(** The expansion relation is a function of the name and of the types
    seen. *)
Lemma expansion_functional :
  (∀ type_ typesseen l typesseen',
     expansion loader type_ typesseen l typesseen' →
     ∀ l2 typesseen2,
       expansion loader type_ typesseen l2 typesseen2 → l = l2 ∧ typesseen' = typesseen2) ∧
  (∀ fieldtypes typesseen l typesseen',
     expansions loader fieldtypes typesseen l typesseen' →
     ∀ l2 typesseen2,
       expansions loader fieldtypes typesseen l2 typesseen2 → l = l2 ∧ typesseen' = typesseen2).
Proof.
  apply expansion_mutind.
  - intros type_ typesseen Hseen l2 typesseen2 H2. by inversion H2; subst.
  - intros type_ typesseen Hnew Htd l2 typesseen2 H2.
    inversion H2; subst; [done|done|congruence].
  - intros type_ typesseen td rest typesseen' Hnew Htd _ IH l2 typesseen2 H2.
    inversion H2 as [| |? ? td2 rest2 ? ? Htd2 Hrest2]; subst; [done|congruence|].
    rewrite Htd in Htd2. injection Htd2 as <-.
    by destruct (IH _ _ Hrest2) as [-> ->].
  - intros typesseen l2 typesseen2 H2. by inversion H2.
  - intros fieldtype fieldtypes typesseen sub typesseen1 rest typesseen' _ IH1 _ IH2
           l2 typesseen2 H2.
    inversion H2 as [|? ? ? sub2 typesseen1' rest2 ? Hsub2 Hrest2]; subst.
    destruct (IH1 _ _ Hsub2) as [-> ->]. by destruct (IH2 _ _ Hrest2) as [-> ->].
Qed.

Lemma subtypedefs_recursive_order typedef l :
  returned (_get_subtypedefs_recursive loader (depth_bound loader) typedef []) = Some (Ok l) →
  match typedef with
  | Some td =>
      ∃ rest typesseen, l = td :: rest ∧ expansions loader (fieldtypes td) [] rest typesseen
  | None => l = []
  end.
Proof.
  intros [typesseen H]%returned_inv. destruct typedef as [td|].
  - unfold _get_subtypedefs_recursive, subtypedefs in H.
    apply (subtypedefs_loop_expansions _ _ (typedefs_recursive_expansion _)) in H
      as (rest & -> & Hrest).
    by exists rest, typesseen.
  - by injection H as <- <-.
Qed.

(** C6. A recursive entry point that returns a list has got the typedef
    of the root. When the root has a typedef, the list starts with it and
    goes on with the expansions of the field types of the root, in the
    order of the fields, each of them whole and depth first before the
    next; when the root has none, the list is empty. This for a root
    given by name and for the request and the response of a service. *)
Theorem closure_order :
  (∀ type_ l,
     get_typedef_recursive loader type_ = Some (Ok l) →
     ∃ typedef,
       get_typedef loader type_ = Ok typedef ∧
       match typedef with
       | Some td =>
           ∃ rest typesseen,
             l = td :: rest ∧ expansions loader (fieldtypes td) [type_] rest typesseen
       | None => l = []
       end) ∧
  (∀ servicetype l,
     get_service_request_typedef_recursive loader servicetype = Some (Ok l) →
     ∃ typedef,
       get_service_request_typedef loader servicetype = Ok typedef ∧
       match typedef with
       | Some td =>
           ∃ rest typesseen,
             l = td :: rest ∧ expansions loader (fieldtypes td) [] rest typesseen
       | None => l = []
       end) ∧
  (∀ servicetype l,
     get_service_response_typedef_recursive loader servicetype = Some (Ok l) →
     ∃ typedef,
       get_service_response_typedef loader servicetype = Ok typedef ∧
       match typedef with
       | Some td =>
           ∃ rest typesseen,
             l = td :: rest ∧ expansions loader (fieldtypes td) [] rest typesseen
       | None => l = []
       end).
Proof.
  repeat split.
  - intros type_ l [typesseen H]%returned_inv.
    apply typedefs_recursive_expansion in H.
    inversion H as [? ? Hseen|? ? Hnew Htd|? ? td rest ? Hnew Htd Hrest]; subst.
    + by apply elem_of_nil in Hseen.
    + by exists None.
    + exists (Some td). split; [done|]. by exists rest, typesseen.
  - intros servicetype l H. unfold get_service_request_typedef_recursive in H.
    destruct (get_service_request_typedef loader servicetype) as [typedef|]; [|done].
    exists typedef. split; [done|]. by apply subtypedefs_recursive_order.
  - intros servicetype l H. unfold get_service_response_typedef_recursive in H.
    destruct (get_service_response_typedef loader servicetype) as [typedef|]; [|done].
    exists typedef. split; [done|]. by apply subtypedefs_recursive_order.
Qed.

End Order.

Lemma closure_order_witness :
  (get_typedef_recursive Samples.nav_loader "nav_msgs/Track" = Some (Ok Samples.track_closure) ∧
   ∃ typedef,
     get_typedef Samples.nav_loader "nav_msgs/Track" = Ok typedef ∧
     match typedef with
     | Some td =>
         ∃ rest typesseen,
           Samples.track_closure = td :: rest ∧
           expansions Samples.nav_loader (fieldtypes td) ["nav_msgs/Track"] rest typesseen
     | None => Samples.track_closure = []
     end) ∧
  (get_service_response_typedef_recursive Samples.nav_loader "nav_msgs/GetTrack"
   = Some (Ok Samples.track_closure) ∧
   ∃ typedef,
     get_service_response_typedef Samples.nav_loader "nav_msgs/GetTrack" = Ok typedef ∧
     match typedef with
     | Some td =>
         ∃ rest typesseen,
           Samples.track_closure = td :: rest ∧
           expansions Samples.nav_loader (fieldtypes td) [] rest typesseen
     | None => Samples.track_closure = []
     end).
Proof.
  assert (get_typedef_recursive Samples.nav_loader "nav_msgs/Track"
          = Some (Ok Samples.track_closure)) as Hclosure by (vm_compute; reflexivity).
  assert (get_service_response_typedef_recursive Samples.nav_loader "nav_msgs/GetTrack"
          = Some (Ok Samples.track_closure)) as Hservice by (vm_compute; reflexivity).
  destruct (closure_order Samples.nav_loader) as (Hname & _ & Hresponse).
  split; [split; [exact Hclosure|exact (Hname _ _ Hclosure)]|].
  split; [exact Hservice|exact (Hresponse _ _ Hservice)].
Defined.

(** ** The types of the typedefs of a run *)

Section Duplicates.

Variable loader : ros_loader.
Hypothesis loader_well_named : well_named loader.

Lemma get_typedef_type type_ td :
  get_typedef loader type_ = Ok (Some td) → type td = type_.
Proof.
  unfold get_typedef, get_message_instance. intros H.
  destruct (decide (type_ ∈ atomics)); [done|].
  destruct (decide (type_ ∈ specials)) as [Hs|_].
  - injection H as <-. unfold _get_special_typedef. by rewrite decide_True.
  - destruct (message_instances loader !! type_) as [instance|] eqn:Hinstance; [|done].
    simpl in H. apply loader_well_named in Hinstance.
    unfold named_as in Hinstance. rewrite H in Hinstance.
    by apply bool_decide_eq_true in Hinstance.
Qed.

(** The types of the typedefs that a call returns are the names it has
    appended that have a typedef, in the order in which it appended
    them. *)
Lemma visited_types typesseen l typesseen' :
  visited loader typesseen l typesseen' →
  ∃ new, typesseen' = typesseen ++ new ∧
         (NoDup typesseen → NoDup typesseen') ∧
         type <$> l = filter (fun type_ => has_typedef loader type_ = true) new.
Proof.
  intros (new & -> & Hnd & Hl). exists new. repeat split; [done|].
  induction Hl as [|td type_ l names Htd Hl IH]; [done|].
  csimpl. by rewrite (get_typedef_type _ _ Htd), IH.
Qed.

Lemma visited_NoDup l typesseen' :
  visited loader [] l typesseen' →
  NoDup typesseen' ∧
  type <$> l = filter (fun type_ => has_typedef loader type_ = true) typesseen' ∧
  NoDup (type <$> l).
Proof.
  intros (new & -> & Hnd & Htypes)%visited_types. simpl in *.
  specialize (Hnd (NoDup_nil_2)).
  repeat split; [done..|]. rewrite Htypes. by apply NoDup_filter.
Qed.

End Duplicates.

(** * Further properties *)

(** ** Returns and exceptions of [_get_typedef] *)

Section TypedefOutcome.

Lemma array_suffix_raises raw e : array_suffix raw = Raise e → e = ValueError.
Proof.
  unfold array_suffix. repeat destruct (decide _); try done.
  destruct (Py.int _); [done|]. by intros [= <-].
Qed.

Lemma type_name_raises base value e :
  _type_name base value = Raise e →
  e = AttributeError ∧ ¬ (base ∈ atomics ∨ base ∈ specials) ∧
  PyVal.is_list value = false ∧ PyVal.module_of value = Raise AttributeError.
Proof.
  unfold _type_name, _type_name_from_instance.
  destruct (decide _) as [|Hbase]; [done|].
  destruct (PyVal.is_list value) eqn:Hlist; [done|].
  destruct value; try done; by intros [= <-].
Qed.

Lemma fields_loop_names instance slot_types names i fn ft fal ex out :
  fields_loop instance slot_types i names fn ft fal ex = Ok out →
  out.1.1.1 = fn ++ names.
Proof.
  destruct out as [[[fn' ft'] fal'] ex']. intros H.
  by apply fields_loop_spec in H as [-> _].
Qed.

(** The loop returns when every remaining field can be described. *)
Lemma fields_loop_returns instance slot_types names :
  ∀ i fn ft fal ex,
    (∀ k name, names !! k = Some name →
       ∃ raw base arity value qualified,
         slot_types !! (i + k)%nat = Some raw ∧ array_suffix raw = Ok (base, arity) ∧
         PyVal.getattr instance name = Ok value ∧ _type_name base value = Ok qualified) →
    ∃ out, fields_loop instance slot_types i names fn ft fal ex = Ok out.
Proof.
  induction names as [|name names IH]; intros i fn ft fal ex Hok; simpl; [by eexists|].
  destruct (Hok 0%nat name eq_refl) as (raw & base & arity & value & q & Hraw & Hs & Hv & Hq).
  rewrite Nat.add_0_r in Hraw. rewrite Hraw. cbn. rewrite Hs. cbn. rewrite Hv. cbn.
  rewrite Hq. cbn. apply IH. intros k name' Hname'.
  replace (S i + k)%nat with (i + S k)%nat by lia. by apply (Hok (S k)).
Qed.

(** The exception of the loop is the exception of a field. *)
Lemma fields_loop_raises instance slot_types names e :
  ∀ i fn ft fal ex,
    fields_loop instance slot_types i names fn ft fal ex = Raise e →
    ∃ k name,
      names !! k = Some name ∧
      match slot_types !! (i + k)%nat with
      | None => e = IndexError
      | Some raw =>
          match array_suffix raw with
          | Raise _ => e = ValueError
          | Ok (base, arity) =>
              e = AttributeError ∧
              (PyVal.attrs_of instance !! name = None ∨
               ∃ value, PyVal.attrs_of instance !! name = Some value ∧
                        ¬ (base ∈ atomics ∨ base ∈ specials) ∧
                        PyVal.is_list value = false ∧
                        PyVal.module_of value = Raise AttributeError)
          end
      end.
Proof.
  induction names as [|name names IH]; intros i fn ft fal ex H; simpl in H; [done|].
  destruct (slot_types !! i) as [raw|] eqn:Hraw; cbn in H.
  2:{ injection H as <-. exists 0%nat, name. by rewrite Nat.add_0_r, Hraw. }
  destruct (array_suffix raw) as [[base arity]|e'] eqn:Hs; cbn in H.
  2:{ injection H as <-. exists 0%nat, name. rewrite Nat.add_0_r, Hraw, Hs.
      split; [done|]. by apply array_suffix_raises in Hs. }
  unfold PyVal.getattr in H.
  destruct (PyVal.attrs_of instance !! name) as [value|] eqn:Hv; cbn in H.
  2:{ injection H as <-. exists 0%nat, name. rewrite Nat.add_0_r, Hraw, Hs.
      split; [done|]. split; [done|]. by left. }
  destruct (_type_name base value) as [q|e'] eqn:Hq; cbn in H.
  2:{ injection H as <-. exists 0%nat, name. rewrite Nat.add_0_r, Hraw, Hs.
      split; [done|]. apply type_name_raises in Hq as (-> & ? & ? & ?).
      split; [done|]. right. by exists value. }
  apply IH in H as (k & name' & Hname' & Hfault).
  exists (S k), name'. split; [done|].
  by replace (i + S k)%nat with (S i + k)%nat by lia.
Qed.

Lemma instance_typedef_raises instance e :
  _get_typedef instance = Raise e →
  ∃ slots slot_types,
    PyVal.slots_of instance = Some slots ∧
    PyVal.slot_types_of instance = Some slot_types ∧
    fields_loop instance slot_types 0 slots [] [] [] [] = Raise e.
Proof.
  destruct instance as [| | | | | | | |m c [slots|] [slot_types|] attrs shown]; try done.
  intros H. exists slots, slot_types. split; [done|]. split; [done|].
  unfold _get_typedef in H.
  destruct (fields_loop _ _ _ _ _ _ _ _) as [[[[fn ft] fal] ex]|e']; cbn in H.
  - by destruct (consts_loop _ _ _ _).
  - by injection H as ->.
Qed.

(** X1. The field names of a typedef are the slots of the instance, in
    the order of the slots. *)
Theorem fieldnames_are_slots instance td :
  _get_typedef instance = Ok (Some td) →
  PyVal.slots_of instance = Some (fieldnames td).
Proof.
  intros (slots & slot_types & Hs & _ & Hfields & _)%instance_typedef_inv.
  apply fields_loop_names in Hfields. simpl in Hfields. by rewrite Hs, Hfields.
Qed.

Lemma fieldnames_are_slots_witness :
  _get_typedef Samples.track = Ok (Some Samples.track_typedef) ∧
  PyVal.slots_of Samples.track
  = Some ["count"; "stamp"; "origin"; "points"; "ids"; "label"].
Proof.
  assert (_get_typedef Samples.track = Ok (Some Samples.track_typedef)) as Htd
    by (vm_compute; reflexivity).
  split; [exact Htd|]. exact (fieldnames_are_slots _ _ Htd).
Defined.

(** X2. For an instance with slots and slot types, [_get_typedef] returns
    a typedef exactly when every slot has a declared type whose array part
    is read, a value, and a qualified type name; and it never returns
    [None] for such an instance. *)
Theorem typedef_returned_iff_fields_ok instance slots slot_types :
  PyVal.slots_of instance = Some slots →
  PyVal.slot_types_of instance = Some slot_types →
  ((∃ td, _get_typedef instance = Ok (Some td)) ↔
   (∀ k name, slots !! k = Some name → field_ok instance k name)) ∧
  (∀ r, _get_typedef instance = Ok r → is_Some r).
Proof.
  intros Hslots Htypes. split; [split|].
  - intros [td Htd] k name Hname.
    apply instance_typedef_inv in Htd as (slots' & slot_types' & Hs & Hst & Hfields & _).
    rewrite Hslots in Hs. rewrite Htypes in Hst. simplify_eq.
    apply fields_loop_spec in Hfields as (_ & fts & als & exs & _ & _ & _ & _ & _ & _ & Hall).
    destruct (Hall k name Hname) as (raw & base & arity & value & q & Hraw & Hs & Hv & Hq & _).
    exists raw, base, arity, value, q. split; [|done].
    unfold declared_field. rewrite Hslots, Htypes. by repeat split.
  - intros Hok.
    destruct instance as [| | | | | | | |m c [slots'|] [slot_types'|] attrs shown]; try done.
    simpl in Hslots, Htypes. simplify_eq.
    destruct (fields_loop_returns (PyObject m c (Some slots) (Some slot_types) attrs shown)
                slot_types slots 0 [] [] [] []) as [out Hout].
    { intros k name Hname.
      destruct (Hok k name Hname) as (raw & base & arity & value & q & (_ & Hraw & Hs & Hv) & Hq).
      exists raw, base, arity, value, q. by repeat split. }
    unfold _get_typedef. rewrite Hout.
    destruct out as [[[fn ft] fal] ex]. cbn. destruct (consts_loop _ _ _ _). by eexists.
  - intros [td|] Hr; [by eexists|].
    destruct instance as [| | | | | | | |m c [slots'|] [slot_types'|] attrs shown]; try done.
    unfold _get_typedef in Hr.
    destruct (fields_loop _ _ _ _ _ _ _ _) as [[[[fn ft] fal] ex]|e']; cbn in Hr; [|done].
    by destruct (consts_loop _ _ _ _).
Qed.

Lemma typedef_returned_iff_fields_ok_witness :
  PyVal.slots_of Samples.point = Some ["x"; "y"] ∧
  PyVal.slot_types_of Samples.point = Some ["float64"; "float64"] ∧
  ((∃ td, _get_typedef Samples.point = Ok (Some td)) ↔
   (∀ k name, ["x"; "y"] !! k = Some name → field_ok Samples.point k name)).
Proof.
  split; [reflexivity|]. split; [reflexivity|].
  exact (proj1 (typedef_returned_iff_fields_ok Samples.point _ _ eq_refl eq_refl)).
Defined.

(** The array part of a declared type is refused only for a length that
    [int] does not read. *)
Lemma array_suffix_refused raw e :
  array_suffix raw = Raise e →
  Py.endswith raw "]" = true ∧
  Py.slice raw (Some (-2)) (Some (-1)) ≠ "[" ∧
  Py.int (Py.slice raw (Some (Py.find raw "[" + 1)) (Some (-1))) = None ∧
  ∀ base (n : N), Py.find base "[" = -1 → raw ≠ base +:+ "[" +:+ pretty n +:+ "]".
Proof.
  intros Hraise. assert (array_suffix raw = Raise e) as Hcopy by done.
  unfold array_suffix in Hcopy.
  destruct (decide (Py.slice raw (Some (-1)) None = "]")) as [Hlast|]; [|done].
  destruct (decide (Py.slice raw (Some (-2)) (Some (-1)) = "[")) as [|Hopen]; [done|].
  destruct (Py.int _) as [n|] eqn:Hint; [done|].
  split; [by apply endswith_last|]. split; [done|]. split; [done|].
  intros base n Hbase ->. destruct (pretty_digits n) as [Hdigits Hne].
  rewrite (array_suffix_fixed base (pretty n) (Z.of_N n) Hbase Hdigits Hne (int_pretty n))
    in Hraise.
  done.
Qed.

Lemma instance_typedef_fault instance e :
  _get_typedef instance = Raise e →
  ∃ slots slot_types,
    PyVal.slots_of instance = Some slots ∧
    PyVal.slot_types_of instance = Some slot_types ∧
    fault instance slots slot_types e.
Proof.
  intros (slots & slot_types & Hs & Hst & Hloop)%instance_typedef_raises.
  exists slots, slot_types. split; [done|]. split; [done|].
  apply fields_loop_raises in Hloop as (k & name & Hname & Hfault). simpl in Hfault.
  destruct (slot_types !! k) as [raw|] eqn:Hraw.
  - destruct (array_suffix raw) as [[base arity]|e'] eqn:Hsuffix.
    + destruct Hfault as [-> Hvalue]. by exists k, name, raw, base, arity.
    + subst e. apply array_suffix_refused in Hsuffix.
      exists k, raw. split; [by apply lookup_lt_Some in Hname|done].
  - subst e. simpl. apply lookup_ge_None in Hraw. apply lookup_lt_Some in Hname. lia.
Qed.



End TypedefOutcome.

(** ** Unknown types *)

Section Unknown.

Variable loader : ros_loader.

(** X4. [get_typedef] raises the exception of the loader exactly for a
    name that is not atomic, not special and not known to the loader: it
    asks the loader for no atomic and no special name, and no other step
    raises this exception. The typedef of the request and of the response
    of a service raise it exactly for a service that the loader does not
    know. *)
Theorem unknown_type_raises :
  (∀ type_,
     get_typedef loader type_ = Raise LoaderError ↔
     (type_ ∉ atomics) ∧ (type_ ∉ specials) ∧ message_instances loader !! type_ = None) ∧
  (∀ servicetype,
     get_service_request_typedef loader servicetype = Raise LoaderError ↔
     service_request_instances loader !! servicetype = None) ∧
  (∀ servicetype,
     get_service_response_typedef loader servicetype = Raise LoaderError ↔
     service_response_instances loader !! servicetype = None).
Proof.
  assert (∀ instance, _get_typedef instance = Raise LoaderError → False) as Hnever.
  { intros instance H. by apply instance_typedef_fault in H as (? & ? & _ & _ & ?). }
  split; [|split].
  - intros type_. unfold get_typedef, get_message_instance. split.
    + intros H. destruct (decide (type_ ∈ atomics)); [done|].
      destruct (decide (type_ ∈ specials)); [done|].
      destruct (message_instances loader !! type_) as [instance|]; [|done].
      destruct (Hnever instance H).
    + intros (Ha & Hs & Hnone). by rewrite !decide_False, Hnone.
  - intros servicetype. unfold get_service_request_typedef, get_service_request_instance.
    destruct (service_request_instances loader !! servicetype) as [instance|]; [|done].
    split; [|done]. intros H. destruct (Hnever instance H).
  - intros servicetype. unfold get_service_response_typedef, get_service_response_instance.
    destruct (service_response_instances loader !! servicetype) as [instance|]; [|done].
    split; [|done]. intros H. destruct (Hnever instance H).
Qed.

End Unknown.

(** ** The closure and the types that the root reaches *)

Section Reach.

Variable loader : ros_loader.

Lemma reaches_trans a b c : reaches loader a b → reaches loader b c → reaches loader a c.
Proof. intros Hab Hbc. induction Hbc; [done|by eapply reaches_field]. Qed.

(** What an expansion that returns has appended to the types seen: names
    that the expanded name reaches, for each of which [get_typedef]
    returned, and with the field types of each of their typedefs seen by
    the end. *)
Lemma expansion_reach :
  (∀ type_ typesseen l typesseen',
     expansion loader type_ typesseen l typesseen' →
     ∃ new, typesseen' = typesseen ++ new ∧ type_ ∈ typesseen' ∧
       ∀ n, n ∈ new →
         reaches loader type_ n ∧ (∃ r, get_typedef loader n = Ok r) ∧
         ∀ td fieldtype, get_typedef loader n = Ok (Some td) →
                         fieldtype ∈ fieldtypes td → fieldtype ∈ typesseen') ∧
  (∀ fieldtypes_ typesseen l typesseen',
     expansions loader fieldtypes_ typesseen l typesseen' →
     ∃ new, typesseen' = typesseen ++ new ∧
       (∀ fieldtype, fieldtype ∈ fieldtypes_ → fieldtype ∈ typesseen') ∧
       ∀ n, n ∈ new →
         (∃ fieldtype, fieldtype ∈ fieldtypes_ ∧ reaches loader fieldtype n) ∧
         (∃ r, get_typedef loader n = Ok r) ∧
         ∀ td fieldtype, get_typedef loader n = Ok (Some td) →
                         fieldtype ∈ fieldtypes td → fieldtype ∈ typesseen').
Proof.
  apply expansion_mutind.
  - intros type_ typesseen Hseen. exists []. rewrite app_nil_r.
    split; [done|]. split; [done|]. by intros n ?%elem_of_nil.
  - intros type_ typesseen Hnew Htd. exists [type_].
    split; [done|]. split; [apply elem_of_app; right; apply list_elem_of_here|].
    intros n ->%list_elem_of_singleton.
    split; [constructor|]. split; [by eexists|]. intros td ft Htd'. congruence.
  - intros type_ typesseen td rest typesseen' Hnew Htd _ (new & -> & Hfields & Hnames).
    exists (type_ :: new). rewrite <- app_assoc. split; [done|].
    split; [apply elem_of_app; right; apply list_elem_of_here|].
    intros n [->|Hn]%elem_of_cons.
    + split; [constructor|]. split; [by eexists|].
      intros td' ft Htd' Hft. rewrite Htd in Htd'. injection Htd' as <-.
      specialize (Hfields ft Hft). by rewrite <- app_assoc in Hfields.
    + destruct (Hnames n Hn) as ((ft & Hft & Hreach) & Hok & Hclosed).
      split; [|split; [done|]].
      * apply (reaches_trans _ ft); [|done].
        by apply (reaches_field _ _ type_ td); [constructor|..].
      * intros td' ft' Htd' Hft'. specialize (Hclosed td' ft' Htd' Hft').
        by rewrite <- app_assoc in Hclosed.
  - intros typesseen. exists []. rewrite app_nil_r.
    split; [done|]. split; [by intros ? ?%elem_of_nil|by intros ? ?%elem_of_nil].
  - intros ft fts typesseen sub typesseen1 rest typesseen' _
           (new1 & -> & Hft & Hnames1) _ (new2 & -> & Hfts & Hnames2).
    exists (new1 ++ new2). rewrite app_assoc. split; [done|]. split.
    + intros f [->|Hf]%elem_of_cons; [|by apply Hfts].
      apply elem_of_app. by left.
    + intros n [Hn|Hn]%elem_of_app.
      * destruct (Hnames1 n Hn) as (Hreach & Hok & Hclosed).
        split; [exists ft; split; [apply list_elem_of_here|done]|]. split; [done|].
        intros td f Htd Hf. apply elem_of_app. left. by apply (Hclosed td).
      * destruct (Hnames2 n Hn) as ((f & Hf & Hreach) & Hok & Hclosed).
        split; [exists f; split; [by apply list_elem_of_further|done]|]. done.
Qed.

Lemma Forall2_elem_of_l {A B} (R : A → B → Prop) l k x :
  Forall2 R l k → x ∈ l → ∃ y, y ∈ k ∧ R x y.
Proof.
  induction 1 as [|x' y' l k HR _ IH]; [by intros ?%elem_of_nil|].
  intros [->|Hx]%elem_of_cons.
  - exists y'. split; [apply list_elem_of_here|done].
  - destruct (IH Hx) as (y & Hy & HRy). exists y. split; [by apply list_elem_of_further|done].
Qed.

Lemma Forall2_elem_of_r {A B} (R : A → B → Prop) l k y :
  Forall2 R l k → y ∈ k → ∃ x, x ∈ l ∧ R x y.
Proof.
  induction 1 as [|x' y' l k HR _ IH]; [by intros ?%elem_of_nil|].
  intros [->|Hy]%elem_of_cons.
  - exists x'. split; [apply list_elem_of_here|done].
  - destruct (IH Hy) as (x & Hx & HRx). exists x. split; [by apply list_elem_of_further|done].
Qed.

(** The typedefs that a call returns are those of the names it has
    appended. *)
Lemma visited_elem_of typesseen l new td :
  visited loader typesseen l (typesseen ++ new) →
  td ∈ l ↔ ∃ n, n ∈ new ∧ get_typedef loader n = Ok (Some td).
Proof.
  intros (new' & Heq & _ & Hl). apply app_inv_head in Heq as <-. split.
  - intros Htd. destruct (Forall2_elem_of_l _ _ _ _ Hl Htd) as (n & Hn & Hget).
    apply list_elem_of_filter in Hn as [_ Hn]. by exists n.
  - intros (n & Hn & Hget).
    assert (n ∈ filter (fun type_ => has_typedef loader type_ = true) new) as Hin.
    { apply list_elem_of_filter. split; [|done]. unfold has_typedef. by rewrite Hget. }
    destruct (Forall2_elem_of_r _ _ _ _ Hl Hin) as (td' & Htd' & Hget').
    rewrite Hget in Hget'. by injection Hget' as ->.
Qed.

(** A run of the expander that starts with no type seen ends with the
    names that the root reaches, and it has the typedef of each. *)
Lemma run_from_nothing fuel root l typesseen :
  _get_typedefs_recursive loader fuel root [] = Some (Ok (l, typesseen)) →
  (∀ n, n ∈ typesseen ↔ reaches loader root n) ∧
  (∀ n, reaches loader root n → ∃ r, get_typedef loader n = Ok r) ∧
  (∀ td, td ∈ l ↔ ∃ n, reaches loader root n ∧ get_typedef loader n = Ok (Some td)).
Proof.
  intros Hrun.
  pose proof (typedefs_recursive_visited loader fuel _ _ _ _ Hrun) as Hvisited.
  apply typedefs_recursive_expansion in Hrun.
  apply (proj1 expansion_reach) in Hrun as (new & -> & Hroot & Hnames). simpl in *.
  assert (∀ n, reaches loader root n → n ∈ new) as Hall.
  { intros n Hn. induction Hn as [|n td ft _ IH Htd Hft]; [done|].
    destruct (Hnames n IH) as (_ & _ & Hclosed). by apply (Hclosed td). }
  split; [|split].
  - intros n. split; [|by apply Hall]. intros Hn. by destruct (Hnames n Hn) as [? _].
  - intros n Hn. by destruct (Hnames n (Hall n Hn)) as (_ & ? & _).
  - intros td. rewrite (visited_elem_of [] l new td Hvisited). split.
    + intros (n & Hn & Hget). exists n. split; [|done]. by destruct (Hnames n Hn) as [? _].
    + intros (n & Hn & Hget). exists n. split; [by apply Hall|done].
Qed.

(** X5. The list that [get_typedef_recursive] returns holds the typedefs
    of the names that the root reaches through field types, and no
    other: a typedef is in the list exactly when it is the typedef of such
    a name. *)
Theorem closure_is_what_root_reaches root l :
  get_typedef_recursive loader root = Some (Ok l) →
  ∀ td, td ∈ l ↔ ∃ type_, reaches loader root type_ ∧ get_typedef loader type_ = Ok (Some td).
Proof.
  intros [typesseen Hrun]%returned_inv. by apply run_from_nothing in Hrun as (_ & _ & ?).
Qed.

End Reach.

Lemma closure_is_what_root_reaches_witness :
  get_typedef_recursive Samples.nav_loader "nav_msgs/Track" = Some (Ok Samples.track_closure) ∧
  (Samples.point_typedef ∈ Samples.track_closure ↔
   ∃ type_, reaches Samples.nav_loader "nav_msgs/Track" type_ ∧
            get_typedef Samples.nav_loader type_ = Ok (Some Samples.point_typedef)).
Proof.
  assert (get_typedef_recursive Samples.nav_loader "nav_msgs/Track"
          = Some (Ok Samples.track_closure)) as Hclosure by (vm_compute; reflexivity).
  split; [exact Hclosure|].
  exact (closure_is_what_root_reaches Samples.nav_loader _ _ Hclosure Samples.point_typedef).
Defined.

(** ** All or nothing *)

Section AllOrNothing.

Variable loader : ros_loader.

Lemma subtypedefs_loop_raises recursive fieldtypes e :
  ∀ typedefs typesseen,
    subtypedefs_loop recursive fieldtypes typedefs typesseen = Some (Raise e) →
    ∃ fieldtype typesseen0,
      fieldtype ∈ fieldtypes ∧ recursive fieldtype typesseen0 = Some (Raise e).
Proof.
  induction fieldtypes as [|ft fts IH]; intros typedefs typesseen H; simpl in H; [done|].
  destruct (recursive ft typesseen) as [[[sub typesseen1]|e']|] eqn:Hcall; [| |done].
  - apply IH in H as (ft' & s0 & Hin & Hcall'). exists ft', s0.
    split; [by apply list_elem_of_further|done].
  - injection H as <-. exists ft, typesseen. split; [apply list_elem_of_here|done].
Qed.

(** An exception of the expander is an exception of [get_typedef] for a
    name that the expanded name reaches. *)
Lemma typedefs_recursive_raises fuel :
  ∀ type_ typesseen e,
    _get_typedefs_recursive loader fuel type_ typesseen = Some (Raise e) →
    ∃ n, reaches loader type_ n ∧ get_typedef loader n = Raise e.
Proof.
  induction fuel as [|fuel IH]; intros type_ typesseen e H; simpl in H; [done|].
  destruct (decide (type_ ∈ typesseen)) as [Hseen|Hnew]; [done|].
  destruct (get_typedef loader type_) as [[td|]|e'] eqn:Htd; simpl in H.
  - apply subtypedefs_loop_raises in H as (ft & s0 & Hft & Hcall).
    apply IH in Hcall as (n & Hreach & Hn). exists n. split; [|done].
    apply (reaches_trans _ _ ft); [|done].
    by apply (reaches_field _ _ type_ td); [constructor|..].
  - done.
  - injection H as <-. exists type_. split; [constructor|done].
Qed.

(** X6. [get_typedef_recursive] returns a list exactly when
    [get_typedef] returns for every name that the root reaches; when it
    raises, the exception is the one that [get_typedef] raises for such a
    name. There is no list of the part that could be expanded. *)
Theorem closure_all_or_nothing root :
  ((∃ l, get_typedef_recursive loader root = Some (Ok l)) ↔
   (∀ n, reaches loader root n → ∃ r, get_typedef loader n = Ok r)) ∧
  (∀ e, get_typedef_recursive loader root = Some (Raise e) →
        ∃ n, reaches loader root n ∧ get_typedef loader n = Raise e).
Proof.
  split; [split|].
  - intros [l [typesseen Hrun]%returned_inv].
    by apply run_from_nothing in Hrun as (_ & ? & _).
  - intros Hok. unfold get_typedef_recursive.
    destruct (typedefs_recursive_returns loader (depth_bound loader) root []
                (unseen_bound loader [])) as [[[l typesseen]|e] Hrun]; rewrite Hrun.
    + by exists l.
    + apply typedefs_recursive_raises in Hrun as (n & Hn & Hraise).
      destruct (Hok n Hn) as [r Hr]. congruence.
  - intros e H. unfold get_typedef_recursive in H.
    destruct (_get_typedefs_recursive _ _ _ _) as [[[l typesseen]|e']|] eqn:Hrun; try done.
    injection H as ->. by apply typedefs_recursive_raises in Hrun.
Qed.

End AllOrNothing.

Lemma closure_all_or_nothing_witness :
  (get_typedef_recursive Samples.dangling_loader "nav_msgs/Route" = Some (Raise LoaderError) ∧
   ∃ n, reaches Samples.dangling_loader "nav_msgs/Route" n ∧
        get_typedef Samples.dangling_loader n = Raise LoaderError) ∧
  (get_typedef_recursive Samples.nav_loader "nav_msgs/Track" = Some (Ok Samples.track_closure) ∧
   ∀ n, reaches Samples.nav_loader "nav_msgs/Track" n →
        ∃ r, get_typedef Samples.nav_loader n = Ok r).
Proof.
  assert (get_typedef_recursive Samples.dangling_loader "nav_msgs/Route"
          = Some (Raise LoaderError)) as Hraise by (vm_compute; reflexivity).
  assert (get_typedef_recursive Samples.nav_loader "nav_msgs/Track"
          = Some (Ok Samples.track_closure)) as Hclosure by (vm_compute; reflexivity).
  split.
  - split; [exact Hraise|].
    exact (proj2 (closure_all_or_nothing Samples.dangling_loader "nav_msgs/Route") _ Hraise).
  - split; [exact Hclosure|].
    exact (proj1 (proj1 (closure_all_or_nothing Samples.nav_loader "nav_msgs/Track"))
             (ex_intro _ _ Hclosure)).
Defined.

(** ** Field types and the types of the list *)

Section Join.

Variable loader : ros_loader.
Hypothesis loader_well_named : well_named loader.

(** X7. Over a loader that gives, for each message name, an instance of
    the class of that name: in the list that [get_typedef_recursive]
    returns, a field type that has a typedef is the ['type'] of exactly one
    typedef of the list, and a field type that has none (an atomic type)
    is the ['type'] of none. *)
Theorem field_types_join root l td fieldtype :
  get_typedef_recursive loader root = Some (Ok l) →
  td ∈ l → fieldtype ∈ fieldtypes td →
  (has_typedef loader fieldtype = true →
   ∃ td', td' ∈ l ∧ type td' = fieldtype ∧
          ∀ td'', td'' ∈ l → type td'' = fieldtype → td'' = td') ∧
  (has_typedef loader fieldtype = false →
   ∀ td'', td'' ∈ l → type td'' = fieldtype → False).
Proof.
  intros [typesseen Hrun]%returned_inv Htd Hft.
  apply run_from_nothing in Hrun as (_ & _ & Hl).
  apply Hl in Htd as (n & Hn & Hget).
  assert (reaches loader root fieldtype) as Hreach by by apply (reaches_field _ _ n td).
  assert (∀ td'', td'' ∈ l → type td'' = fieldtype →
                  get_typedef loader fieldtype = Ok (Some td'')) as Hunique.
  { intros td'' (n'' & _ & Hget'')%Hl Htype.
    by rewrite <- Htype, (get_typedef_type loader loader_well_named _ _ Hget''). }
  unfold has_typedef. split.
  - destruct (get_typedef loader fieldtype) as [[td'|]|] eqn:Hget'; try done. intros _.
    exists td'. split; [apply Hl; by exists fieldtype|].
    split; [by apply (get_typedef_type loader loader_well_named)|].
    intros td'' Hin Htype. specialize (Hunique td'' Hin Htype). congruence.
  - intros Hnone td'' Hin Htype. specialize (Hunique td'' Hin Htype).
    by rewrite Hunique in Hnone.
Qed.

End Join.

Lemma field_types_join_witness :
  well_named Samples.nav_loader ∧
  get_typedef_recursive Samples.nav_loader "nav_msgs/Track" = Some (Ok Samples.track_closure) ∧
  Samples.track_typedef ∈ Samples.track_closure ∧
  "geometry_msgs/Point" ∈ fieldtypes Samples.track_typedef ∧
  has_typedef Samples.nav_loader "geometry_msgs/Point" = true ∧
  ∃ td', td' ∈ Samples.track_closure ∧ type td' = "geometry_msgs/Point" ∧
         ∀ td'', td'' ∈ Samples.track_closure → type td'' = "geometry_msgs/Point" → td'' = td'.
Proof.
  assert (well_named Samples.nav_loader) as Hnamed
    by (apply (bool_decide_unpack _); vm_compute; exact I).
  assert (get_typedef_recursive Samples.nav_loader "nav_msgs/Track"
          = Some (Ok Samples.track_closure)) as Hclosure by (vm_compute; reflexivity).
  assert (Samples.track_typedef ∈ Samples.track_closure) as Htd by apply list_elem_of_here.
  assert ("geometry_msgs/Point" ∈ fieldtypes Samples.track_typedef) as Hft
    by (apply (bool_decide_unpack _); vm_compute; exact I).
  assert (has_typedef Samples.nav_loader "geometry_msgs/Point" = true) as Hhas
    by (vm_compute; reflexivity).
  split; [exact Hnamed|]. split; [exact Hclosure|]. split; [exact Htd|].
  split; [exact Hft|]. split; [exact Hhas|].
  exact (proj1 (field_types_join Samples.nav_loader Hnamed _ _ _ _ Hclosure Htd Hft) Hhas).
Defined.

(** ** Size of the closure *)

Section Size.

Variable loader : ros_loader.

Lemma expandable_size : (size (expandable loader) ≤ size (message_instances loader) + 2)%nat.
Proof.
  pose proof (unseen_bound loader []) as Hbound. unfold unseen, depth_bound in Hbound.
  simpl in Hbound. rewrite difference_empty_L in Hbound. lia.
Qed.

Lemma visited_length l typesseen' :
  visited loader [] l typesseen' →
  (length l ≤ size (message_instances loader) + 2)%nat.
Proof.
  intros (new & -> & Hnd & Hl). simpl in Hnd. specialize (Hnd (NoDup_nil_2)).
  rewrite (Forall2_length _ _ _ Hl).
  set (names := filter (fun type_ => has_typedef loader type_ = true) new).
  assert (NoDup names) as Hnames by by apply NoDup_filter.
  rewrite <- (size_list_to_set (C:=gset string) names Hnames).
  etrans; [|apply expandable_size]. apply subseteq_size.
  intros n [Hhas _]%elem_of_list_to_set%list_elem_of_filter.
  unfold has_typedef in Hhas.
  destruct (get_typedef loader n) as [[td|]|] eqn:Hget; try done.
  by apply (get_typedef_expandable loader n td).
Qed.

(** X8. The list that [get_typedef_recursive] returns has at most as
    many typedefs as the loader has message names, and two more for the
    special types; the lists for the request and the response of a
    service have at most one more, the typedef of the root. *)
Theorem closure_length_bound :
  (∀ root l,
     get_typedef_recursive loader root = Some (Ok l) →
     (length l ≤ size (message_instances loader) + 2)%nat) ∧
  (∀ servicetype l,
     get_service_request_typedef_recursive loader servicetype = Some (Ok l) →
     (length l ≤ size (message_instances loader) + 3)%nat) ∧
  (∀ servicetype l,
     get_service_response_typedef_recursive loader servicetype = Some (Ok l) →
     (length l ≤ size (message_instances loader) + 3)%nat).
Proof.
  assert (∀ typedef l,
            returned (_get_subtypedefs_recursive loader (depth_bound loader) typedef [])
            = Some (Ok l) →
            (length l ≤ size (message_instances loader) + 3)%nat) as Hservice.
  { intros [td|] l [typesseen H]%returned_inv.
    - apply subtypedefs_recursive_visited in H as (subs & -> & Hsubs).
      apply visited_length in Hsubs. simpl. lia.
    - injection H as <- <-. simpl. lia. }
  repeat split.
  - intros root l [typesseen H]%returned_inv.
    by apply typedefs_recursive_visited, visited_length in H.
  - intros servicetype l H. unfold get_service_request_typedef_recursive in H.
    destruct (get_service_request_typedef loader servicetype) as [typedef|]; [|done].
    by apply (Hservice typedef).
  - intros servicetype l H. unfold get_service_response_typedef_recursive in H.
    destruct (get_service_response_typedef loader servicetype) as [typedef|]; [|done].
    by apply (Hservice typedef).
Qed.

End Size.

Lemma closure_length_bound_witness :
  get_service_request_typedef_recursive Samples.graph_loader "graph_msgs/Walk"
  = Some (Ok [Samples.walk_request_typedef; Samples.walk_request_typedef]) ∧
  (length [Samples.walk_request_typedef; Samples.walk_request_typedef]
   ≤ size (message_instances Samples.graph_loader) + 3)%nat.
Proof.
  assert (get_service_request_typedef_recursive Samples.graph_loader "graph_msgs/Walk"
          = Some (Ok [Samples.walk_request_typedef; Samples.walk_request_typedef]))
    as Hclosure by (vm_compute; reflexivity).
  split; [exact Hclosure|].
  exact (proj1 (proj2 (closure_length_bound Samples.graph_loader)) _ _ Hclosure).
Defined.

(** ** Types with atomic fields only *)

Section Flat.

Variable loader : ros_loader.

Lemma subtypedefs_loop_atomic fuel fieldtypes :
  Forall (fun fieldtype => fieldtype ∈ atomics) fieldtypes →
  ∀ typedefs typesseen,
    ∃ typesseen',
      subtypedefs_loop (_get_typedefs_recursive loader (S fuel)) fieldtypes typedefs typesseen
      = Some (Ok (typedefs, typesseen')).
Proof.
  induction 1 as [|ft fts Hft _ IH]; intros typedefs typesseen; [by eexists|].
  cbn [subtypedefs_loop _get_typedefs_recursive].
  destruct (decide (ft ∈ typesseen)).
  - rewrite app_nil_r. apply IH.
  - rewrite (get_typedef_atomic loader ft Hft). cbn [subtypedefs].
    rewrite app_nil_r. apply IH.
Qed.

(** X9. A typedef whose field types are all atomic is its own closure:
    the list is the typedef alone, for a root given by name and for the
    request and the response of a service. *)
Theorem closure_of_atomic_fields td :
  Forall (fun fieldtype => fieldtype ∈ atomics) (fieldtypes td) →
  (∀ type_, get_typedef loader type_ = Ok (Some td) →
            get_typedef_recursive loader type_ = Some (Ok [td])) ∧
  (∀ servicetype, get_service_request_typedef loader servicetype = Ok (Some td) →
                  get_service_request_typedef_recursive loader servicetype
                  = Some (Ok [td])) ∧
  (∀ servicetype, get_service_response_typedef loader servicetype = Ok (Some td) →
                  get_service_response_typedef_recursive loader servicetype
                  = Some (Ok [td])).
Proof.
  intros Hflat. repeat split.
  - intros type_ Htd. unfold get_typedef_recursive, depth_bound.
    cbn [_get_typedefs_recursive].
    destruct (decide (type_ ∈ [])) as [Hin|_]; [by apply elem_of_nil in Hin|].
    rewrite Htd. cbn [subtypedefs].
    destruct (subtypedefs_loop_atomic (S (size (message_instances loader))) _ Hflat
                [td] ([] ++ [type_])) as [typesseen' Hloop].
    simpl in Hloop |- *. by rewrite Hloop.
  - intros servicetype Htd. unfold get_service_request_typedef_recursive.
    rewrite Htd. unfold _get_subtypedefs_recursive, subtypedefs, depth_bound.
    destruct (subtypedefs_loop_atomic (S (S (size (message_instances loader)))) _ Hflat
                [td] []) as [typesseen' ->]. done.
  - intros servicetype Htd. unfold get_service_response_typedef_recursive.
    rewrite Htd. unfold _get_subtypedefs_recursive, subtypedefs, depth_bound.
    destruct (subtypedefs_loop_atomic (S (S (size (message_instances loader)))) _ Hflat
                [td] []) as [typesseen' ->]. done.
Qed.

End Flat.

Lemma closure_of_atomic_fields_witness :
  Forall (fun fieldtype => fieldtype ∈ atomics) (fieldtypes Samples.point_typedef) ∧
  get_typedef Samples.nav_loader "geometry_msgs/Point" = Ok (Some Samples.point_typedef) ∧
  get_typedef_recursive Samples.nav_loader "geometry_msgs/Point"
  = Some (Ok [Samples.point_typedef]) ∧
  get_service_request_typedef Samples.nav_loader "nav_msgs/GetTrack"
  = Ok (Some Samples.point_typedef) ∧
  get_service_request_typedef_recursive Samples.nav_loader "nav_msgs/GetTrack"
  = Some (Ok [Samples.point_typedef]).
Proof.
  assert (Forall (fun fieldtype => fieldtype ∈ atomics) (fieldtypes Samples.point_typedef))
    as Hflat by (apply (bool_decide_unpack _); vm_compute; exact I).
  assert (get_typedef Samples.nav_loader "geometry_msgs/Point"
          = Ok (Some Samples.point_typedef)) as Htd by (vm_compute; reflexivity).
  assert (get_service_request_typedef Samples.nav_loader "nav_msgs/GetTrack"
          = Ok (Some Samples.point_typedef)) as Hreq by (vm_compute; reflexivity).
  destruct (closure_of_atomic_fields Samples.nav_loader _ Hflat) as (Hname & Hrequest & _).
  split; [exact Hflat|]. split; [exact Htd|]. split; [exact (Hname _ Htd)|].
  split; [exact Hreq|]. exact (Hrequest _ Hreq).
Defined.

(** ** The closure depends on what the root reaches *)

Section Frame.

Variables loader1 loader2 : ros_loader.

Lemma subtypedefs_loop_agree_on recursive1 recursive2 fieldtypes :
  (∀ fieldtype typesseen r,
     fieldtype ∈ fieldtypes →
     recursive1 fieldtype typesseen = Some r → recursive2 fieldtype typesseen = Some r) →
  ∀ typedefs typesseen r,
    subtypedefs_loop recursive1 fieldtypes typedefs typesseen = Some r →
    subtypedefs_loop recursive2 fieldtypes typedefs typesseen = Some r.
Proof.
  induction fieldtypes as [|ft fts IH]; intros Hagree typedefs typesseen r H;
    simpl in *; [done|].
  destruct (recursive1 ft typesseen) as [r1|] eqn:Hcall; [|done].
  rewrite (Hagree _ _ _ (list_elem_of_here _ _) Hcall).
  destruct r1 as [[sub typesseen']|e]; [|done].
  apply IH; [|done]. intros ft' s r' Hin. apply Hagree. by apply list_elem_of_further.
Qed.

Lemma typedefs_recursive_agree fuel :
  ∀ type_ typesseen r,
    (∀ n, reaches loader1 type_ n → get_typedef loader1 n = get_typedef loader2 n) →
    _get_typedefs_recursive loader1 fuel type_ typesseen = Some r →
    _get_typedefs_recursive loader2 fuel type_ typesseen = Some r.
Proof.
  induction fuel as [|fuel IH]; intros type_ typesseen r Hagree H; simpl in *; [done|].
  destruct (decide (type_ ∈ typesseen)); [done|].
  rewrite <- (Hagree type_ (reaches_root _ _)).
  destruct (get_typedef loader1 type_) as [[td|]|] eqn:Htd; [|done..]. simpl in *.
  apply (subtypedefs_loop_agree_on (_get_typedefs_recursive loader1 fuel)); [|done].
  intros ft s r' Hft. apply IH. intros m Hm. apply Hagree.
  apply (reaches_trans _ _ ft); [|done].
  by apply (reaches_field _ _ type_ td); [constructor|..].
Qed.

(** X10. Two loaders for which [get_typedef] agrees on the names that
    the root reaches give one result for [get_typedef_recursive]: what
    else a loader knows does not count. *)
Theorem closure_depends_on_reached root :
  (∀ n, reaches loader1 root n → get_typedef loader1 n = get_typedef loader2 n) →
  get_typedef_recursive loader1 root = get_typedef_recursive loader2 root.
Proof.
  intros Hagree. unfold get_typedef_recursive.
  destruct (typedefs_recursive_returns loader1 (depth_bound loader1) root []
              (unseen_bound loader1 [])) as [r1 H1].
  destruct (typedefs_recursive_returns loader2 (depth_bound loader2) root []
              (unseen_bound loader2 [])) as [r2 H2].
  rewrite H1, H2.
  apply typedefs_recursive_agree in H1; [|done].
  apply (typedefs_recursive_fuel loader2 _ (depth_bound loader1 `max` depth_bound loader2))
    in H1; [|lia].
  apply (typedefs_recursive_fuel loader2 _ (depth_bound loader1 `max` depth_bound loader2))
    in H2; [|lia].
  congruence.
Qed.

End Frame.

Lemma closure_depends_on_reached_witness :
  (∀ n, reaches Samples.nav_loader "nav_msgs/Track" n →
        get_typedef Samples.nav_loader n = get_typedef Samples.wider_loader n) ∧
  get_typedef_recursive Samples.nav_loader "nav_msgs/Track"
  = get_typedef_recursive Samples.wider_loader "nav_msgs/Track".
Proof.
  assert (∀ n, reaches Samples.nav_loader "nav_msgs/Track" n →
               get_typedef Samples.nav_loader n = get_typedef Samples.wider_loader n)
    as Hagree.
  { assert (_get_typedefs_recursive Samples.nav_loader (depth_bound Samples.nav_loader)
              "nav_msgs/Track" []
            = Some (Ok (Samples.track_closure,
                        ["nav_msgs/Track"; "int32"; "time"; "geometry_msgs/Point";
                         "float64"; "string"]))) as Hrun by (vm_compute; reflexivity).
    apply run_from_nothing in Hrun as (Hseen & _ & _).
    intros n Hn%Hseen.
    repeat (apply elem_of_cons in Hn as [->|Hn]; [vm_compute; reflexivity|]).
    by apply elem_of_nil in Hn. }
  split; [exact Hagree|].
  exact (closure_depends_on_reached Samples.nav_loader Samples.wider_loader _ Hagree).
Defined.

(** ** The closure of a service *)

Section ServiceReach.

Variable loader : ros_loader.

Lemma subtypedefs_from_nothing td0 l :
  returned (_get_subtypedefs_recursive loader (depth_bound loader) (Some td0) []) = Some (Ok l) →
  ∀ td, td ∈ l ↔
        td = td0 ∨
        ∃ fieldtype n, fieldtype ∈ fieldtypes td0 ∧ reaches loader fieldtype n ∧
                       get_typedef loader n = Ok (Some td).
Proof.
  intros [typesseen Hrun]%returned_inv td.
  pose proof (subtypedefs_recursive_visited loader _ _ _ _ _ Hrun) as (subs & -> & Hvisited).
  unfold _get_subtypedefs_recursive, subtypedefs in Hrun.
  apply (subtypedefs_loop_expansions loader _ _ (typedefs_recursive_expansion loader _))
    in Hrun as (rest & Hrest & Hexp).
  apply (proj2 (expansion_reach loader)) in Hexp as (new & -> & Hfields & Hnames).
  simpl in *.
  assert (∀ ft n, ft ∈ fieldtypes td0 → reaches loader ft n → n ∈ new) as Hall.
  { intros ft n Hft Hn. induction Hn as [|n td' ft' _ IH Htd' Hft']; [by apply Hfields|].
    destruct (Hnames n IH) as (_ & _ & Hclosed). by apply (Hclosed td'). }
  rewrite elem_of_cons, (visited_elem_of loader [] subs new td Hvisited).
  split; (intros [->|Hin]; [by left|right]).
  - destruct Hin as (n & Hn & Hget).
    destruct (Hnames n Hn) as ((ft & Hft & Hreach) & _). by exists ft, n.
  - destruct Hin as (ft & n & Hft & Hreach & Hget). exists n.
    split; [by apply (Hall ft)|done].
Qed.

(** X11. The list for the request of a service holds the typedef of the
    request and the typedefs of the names that the field types of the
    request reach, and no other; the same for the response. *)
Theorem service_closure_is_what_fields_reach :
  (∀ servicetype l,
     get_service_request_typedef_recursive loader servicetype = Some (Ok l) →
     ∀ td, td ∈ l ↔
           ∃ td0, get_service_request_typedef loader servicetype = Ok (Some td0) ∧
                  (td = td0 ∨
                   ∃ fieldtype n, fieldtype ∈ fieldtypes td0 ∧ reaches loader fieldtype n ∧
                                  get_typedef loader n = Ok (Some td))) ∧
  (∀ servicetype l,
     get_service_response_typedef_recursive loader servicetype = Some (Ok l) →
     ∀ td, td ∈ l ↔
           ∃ td0, get_service_response_typedef loader servicetype = Ok (Some td0) ∧
                  (td = td0 ∨
                   ∃ fieldtype n, fieldtype ∈ fieldtypes td0 ∧ reaches loader fieldtype n ∧
                                  get_typedef loader n = Ok (Some td))).
Proof.
  split; intros servicetype l H td.
  - unfold get_service_request_typedef_recursive in H.
    destruct (get_service_request_typedef loader servicetype) as [[td0|]|]; [| |done].
    + rewrite (subtypedefs_from_nothing td0 l H td). split.
      * intros Hin. by exists td0.
      * by intros (td0' & [= <-] & Hin).
    + apply returned_inv in H as [typesseen H]. injection H as <- <-.
      split; [by intros ?%elem_of_nil|by intros (? & ? & _)].
  - unfold get_service_response_typedef_recursive in H.
    destruct (get_service_response_typedef loader servicetype) as [[td0|]|]; [| |done].
    + rewrite (subtypedefs_from_nothing td0 l H td). split.
      * intros Hin. by exists td0.
      * by intros (td0' & [= <-] & Hin).
    + apply returned_inv in H as [typesseen H]. injection H as <- <-.
      split; [by intros ?%elem_of_nil|by intros (? & ? & _)].
Qed.

End ServiceReach.

Lemma service_closure_is_what_fields_reach_witness :
  get_service_response_typedef_recursive Samples.nav_loader "nav_msgs/GetTrack"
  = Some (Ok Samples.track_closure) ∧
  (Samples.time_typedef ∈ Samples.track_closure ↔
   ∃ td0, get_service_response_typedef Samples.nav_loader "nav_msgs/GetTrack" = Ok (Some td0) ∧
          (Samples.time_typedef = td0 ∨
           ∃ fieldtype n, fieldtype ∈ fieldtypes td0 ∧
                          reaches Samples.nav_loader fieldtype n ∧
                          get_typedef Samples.nav_loader n = Ok (Some Samples.time_typedef))).
Proof.
  assert (get_service_response_typedef_recursive Samples.nav_loader "nav_msgs/GetTrack"
          = Some (Ok Samples.track_closure)) as Hclosure by (vm_compute; reflexivity).
  split; [exact Hclosure|].
  exact (proj2 (service_closure_is_what_fields_reach Samples.nav_loader) _ _ Hclosure
           Samples.time_typedef).
Defined.

(** ** The base type is what is left of the declared type *)

Section Prefix.

Implicit Types (s raw base rest : string).

Lemma append_nil_r s : s +:+ "" = s.
Proof.
  induction s as [|c s IH]; [done|].
  change (String c (s +:+ "") = String c s). by rewrite IH.
Qed.

Lemma substring_prefix n s :
  ∃ rest, s = String.substring 0 n s +:+ rest ∧
          (String.length (String.substring 0 n s) ≤ n)%nat.
Proof.
  revert n. induction s as [|c s IH]; intros [|n]; simpl.
  - exists "". split; [reflexivity|simpl; lia].
  - exists "". split; [reflexivity|simpl; lia].
  - exists (String c s). split; [reflexivity|simpl; lia].
  - destruct (IH n) as (rest & Hrest & Hlen). exists rest. split; [|simpl; lia].
    change (String c s = String c (String.substring 0 n s +:+ rest)). by f_equal.
Qed.

(** [s[:j]] is the start of [s], and shorter than [s] when [j] is below
    the length of [s] and [s] is not empty. *)
Lemma slice_up_to s j :
  ∃ rest, s = Py.slice s None (Some j) +:+ rest ∧
          (s ≠ "" → j < Z.of_nat (String.length s) → rest ≠ "").
Proof.
  unfold Py.slice.
  destruct (substring_prefix
              (Z.to_nat (Py.bound (Z.of_nat (String.length s)) j - 0)) s)
    as (rest & Hrest & Hlen).
  exists rest. split; [done|]. intros Hne Hj ->.
  rewrite append_nil_r in Hrest. rewrite <- Hrest in Hlen.
  assert (String.length s ≠ 0)%nat by (by destruct s).
  unfold Py.bound in Hlen. destruct (Z.ltb_spec j 0); lia.
Qed.

Lemma find_below s c : Py.find s (String c "") < Z.of_nat (String.length s) ∨ s = "".
Proof.
  destruct s as [|c0 s0]; [by right|left]. unfold Py.find.
  generalize (String c0 s0). intros s.
  assert (∀ n, String.index 0 (String c "") s = Some n → (n < String.length s)%nat) as Hn.
  { induction s as [|c' s IH]; intros n; [by destruct n|].
    rewrite index_char_cons. destruct (decide (c = c')); [intros [= <-]; simpl; lia|].
    destruct (String.index 0 (String c "") s) as [m|]; [|done].
    intros [= <-]. specialize (IH m eq_refl). simpl. lia. }
  destruct (String.index 0 (String c "") s) as [n|]; [specialize (Hn n eq_refl)|]; lia.
Qed.

(** X12. The base type that the array part of a declared type leaves is
    the start of the declared type: it is the whole of it, with arity
    [-1], when the declared type does not end in ["]"], and a shorter
    start of it otherwise. *)
Theorem base_type_is_prefix raw base arity :
  array_suffix raw = Ok (base, arity) →
  ∃ rest, raw = base +:+ rest ∧
          (Py.endswith raw "]" = false → rest = "" ∧ arity = -1) ∧
          (Py.endswith raw "]" = true → rest ≠ "").
Proof.
  unfold array_suffix.
  destruct (decide (Py.slice raw (Some (-1)) None = "]")) as [Hlast|Hlast].
  - assert (Py.endswith raw "]" = true) as Hends by by apply endswith_last.
    assert (raw ≠ "") as Hne by (by intros ->).
    assert (0 < Z.of_nat (String.length raw)) as Hlen by (destruct raw; [done|simpl; lia]).
    destruct (decide _) as [_|_].
    + intros [= <- <-]. destruct (slice_up_to raw (-2)) as (rest & Hrest & Hshort).
      exists rest. split; [done|]. split; [congruence|]. intros _. apply Hshort; [done|lia].
    + destruct (Py.int _) as [n|]; [|done]. cbn. intros [= <- <-].
      destruct (slice_up_to raw (Py.find raw "[")) as (rest & Hrest & Hshort).
      exists rest. split; [done|]. split; [congruence|]. intros _. apply Hshort; [done|].
      by destruct (find_below raw "[").
  - intros [= <- <-]. exists "". split; [by rewrite append_nil_r|].
    split; [done|]. intros Hends. by apply endswith_last in Hends.
Qed.

Lemma base_type_is_prefix_witness :
  array_suffix "geometry_msgs/Point[4]" = Ok ("geometry_msgs/Point", 4) ∧
  ∃ rest, "geometry_msgs/Point[4]" = "geometry_msgs/Point" +:+ rest ∧
          (Py.endswith "geometry_msgs/Point[4]" "]" = false → rest = "" ∧ 4 = -1) ∧
          (Py.endswith "geometry_msgs/Point[4]" "]" = true → rest ≠ "").
Proof.
  assert (array_suffix "geometry_msgs/Point[4]" = Ok ("geometry_msgs/Point", 4)) as Hsuffix
    by (vm_compute; reflexivity).
  split; [exact Hsuffix|]. exact (base_type_is_prefix _ _ _ Hsuffix).
Defined.

End Prefix.

(** ** Closures inside closures *)

Section Contained.

Variable loader : ros_loader.

(** X13. When [get_typedef_recursive] returns a list for a root, it
    returns a list for every name that the root reaches, and every
    typedef of that list is in the list of the root. *)
Theorem closure_of_reached_is_contained root n l :
  get_typedef_recursive loader root = Some (Ok l) →
  reaches loader root n →
  ∃ l', get_typedef_recursive loader n = Some (Ok l') ∧ ∀ td, td ∈ l' → td ∈ l.
Proof.
  intros [typesseen Hrun]%returned_inv Hn.
  apply run_from_nothing in Hrun as (_ & Hok & Hl).
  unfold get_typedef_recursive.
  destruct (typedefs_recursive_returns loader (depth_bound loader) n []
              (unseen_bound loader [])) as [[[l' typesseen']|e] Hrun']; rewrite Hrun'.
  - exists l'. split; [done|]. intros td Htd.
    apply run_from_nothing in Hrun' as (_ & _ & Hl').
    apply Hl' in Htd as (m & Hm & Hget). apply Hl. exists m.
    split; [by apply (reaches_trans _ _ n)|done].
  - apply typedefs_recursive_raises in Hrun' as (m & Hm & Hraise).
    destruct (Hok m (reaches_trans _ _ _ _ Hn Hm)) as [r Hr]. congruence.
Qed.

End Contained.

Lemma closure_of_reached_is_contained_witness :
  get_typedef_recursive Samples.nav_loader "nav_msgs/Track" = Some (Ok Samples.track_closure) ∧
  reaches Samples.nav_loader "nav_msgs/Track" "geometry_msgs/Point" ∧
  ∃ l', get_typedef_recursive Samples.nav_loader "geometry_msgs/Point" = Some (Ok l') ∧
        ∀ td, td ∈ l' → td ∈ Samples.track_closure.
Proof.
  assert (get_typedef_recursive Samples.nav_loader "nav_msgs/Track"
          = Some (Ok Samples.track_closure)) as Hclosure by (vm_compute; reflexivity).
  assert (reaches Samples.nav_loader "nav_msgs/Track" "geometry_msgs/Point") as Hreach.
  { apply (reaches_field _ _ "nav_msgs/Track" Samples.track_typedef).
    - constructor.
    - vm_compute. reflexivity.
    - apply (bool_decide_unpack _). vm_compute. exact I. }
  split; [exact Hclosure|]. split; [exact Hreach|].
  exact (closure_of_reached_is_contained Samples.nav_loader _ _ _ Hclosure Hreach).
Defined.

(** ** A service and the message of its root *)

Section ServiceAndMessage.

Variable loader : ros_loader.
Variable root : string.

Lemma subtypedefs_loop_seen_before recursive fieldtypes :
  (∀ fieldtype typesseen,
     fieldtype ∈ fieldtypes →
     recursive fieldtype (root :: typesseen) = seen_before root <$> recursive fieldtype typesseen) →
  ∀ typedefs typesseen,
    subtypedefs_loop recursive fieldtypes typedefs (root :: typesseen)
    = seen_before root <$> subtypedefs_loop recursive fieldtypes typedefs typesseen.
Proof.
  induction fieldtypes as [|ft fts IH]; intros Hrec typedefs typesseen; [done|].
  cbn [subtypedefs_loop]. rewrite (Hrec ft typesseen (list_elem_of_here _ _)).
  destruct (recursive ft typesseen) as [[[sub typesseen1]|e]|]; [|done..].
  cbn. apply IH. intros ft' s Hin. apply Hrec. by apply list_elem_of_further.
Qed.

(** A type seen before the run that the run does not come to changes
    nothing but the list of types seen. *)
Lemma typedefs_recursive_seen_before fuel :
  ∀ type_ typesseen,
    (∀ n, reaches loader type_ n → n ≠ root) →
    _get_typedefs_recursive loader fuel type_ (root :: typesseen)
    = seen_before root <$> _get_typedefs_recursive loader fuel type_ typesseen.
Proof.
  induction fuel as [|fuel IH]; intros type_ typesseen Hfar; [done|].
  cbn [_get_typedefs_recursive].
  assert (type_ ≠ root) as Hne by apply Hfar, reaches_root.
  destruct (decide (type_ ∈ typesseen)) as [Hseen|Hnew].
  - by rewrite decide_True by by apply list_elem_of_further.
  - rewrite decide_False by (intros [?|?]%elem_of_cons; done).
    destruct (get_typedef loader type_) as [[td|]|] eqn:Htd; [|done..].
    cbn [subtypedefs]. change ((root :: typesseen) ++ [type_]) with (root :: typesseen ++ [type_]).
    apply subtypedefs_loop_seen_before. intros ft s Hft. apply IH.
    intros n Hn. apply Hfar. apply (reaches_trans _ _ ft); [|done].
    by apply (reaches_field _ _ type_ td); [constructor|..].
Qed.

Lemma typedefs_recursive_root fuel td :
  get_typedef loader root = Ok (Some td) →
  (∀ fieldtype n, fieldtype ∈ fieldtypes td → reaches loader fieldtype n → n ≠ root) →
  _get_typedefs_recursive loader (S fuel) root []
  = seen_before root
    <$> subtypedefs_loop (_get_typedefs_recursive loader fuel) (fieldtypes td) [td] [].
Proof.
  intros Htd Hfar. cbn [_get_typedefs_recursive].
  destruct (decide (root ∈ [])) as [Hin|_]; [by apply elem_of_nil in Hin|].
  rewrite Htd. cbn [subtypedefs]. change ([] ++ [root]) with (root :: []).
  apply subtypedefs_loop_seen_before.
  intros ft s Hft. apply typedefs_recursive_seen_before. intros n. by apply Hfar.
Qed.

Lemma subtypedefs_agree_with_message td :
  get_typedef loader root = Ok (Some td) →
  (∀ fieldtype n, fieldtype ∈ fieldtypes td → reaches loader fieldtype n → n ≠ root) →
  returned (_get_subtypedefs_recursive loader (depth_bound loader) (Some td) [])
  = get_typedef_recursive loader root.
Proof.
  intros Htd Hfar.
  destruct (typedefs_recursive_returns loader (depth_bound loader) root []
              (unseen_bound loader [])) as [r Hrun].
  unfold get_typedef_recursive. rewrite Hrun.
  unfold depth_bound in Hrun |- *.
  rewrite (typedefs_recursive_root _ td Htd Hfar) in Hrun.
  destruct (subtypedefs_loop _ (fieldtypes td) [td] []) as [r0|] eqn:Hloop; [|done].
  injection Hrun as <-.
  unfold _get_subtypedefs_recursive, subtypedefs.
  apply (subtypedefs_loop_agree _ (_get_typedefs_recursive loader
                                     (S (S (S (size (message_instances loader))))))) in Hloop.
  2:{ intros t s r. apply typedefs_recursive_fuel. lia. }
  rewrite Hloop.
  by destruct r0 as [[l typesseen]|e].
Qed.

(** X14. When the loader gives the typedef of the request of a service
    also for a message name, and no field type of the typedef reaches
    this name, the list for the request of the service is the list for
    the name; the same for the response. *)
Theorem service_closure_agrees_with_message td :
  get_typedef loader root = Ok (Some td) →
  (∀ fieldtype n, fieldtype ∈ fieldtypes td → reaches loader fieldtype n → n ≠ root) →
  (∀ servicetype,
     get_service_request_typedef loader servicetype = Ok (Some td) →
     get_service_request_typedef_recursive loader servicetype
     = get_typedef_recursive loader root) ∧
  (∀ servicetype,
     get_service_response_typedef loader servicetype = Ok (Some td) →
     get_service_response_typedef_recursive loader servicetype
     = get_typedef_recursive loader root).
Proof.
  intros Htd Hfar. split; intros servicetype Hroot.
  - unfold get_service_request_typedef_recursive. rewrite Hroot.
    by apply subtypedefs_agree_with_message.
  - unfold get_service_response_typedef_recursive. rewrite Hroot.
    by apply subtypedefs_agree_with_message.
Qed.

End ServiceAndMessage.

Lemma service_closure_agrees_with_message_witness :
  get_typedef Samples.nav_loader "nav_msgs/Track" = Ok (Some Samples.track_typedef) ∧
  (∀ fieldtype n,
     fieldtype ∈ fieldtypes Samples.track_typedef →
     reaches Samples.nav_loader fieldtype n → n ≠ "nav_msgs/Track") ∧
  get_service_response_typedef Samples.nav_loader "nav_msgs/GetTrack"
  = Ok (Some Samples.track_typedef) ∧
  get_service_response_typedef_recursive Samples.nav_loader "nav_msgs/GetTrack"
  = get_typedef_recursive Samples.nav_loader "nav_msgs/Track".
Proof.
  assert (get_typedef Samples.nav_loader "nav_msgs/Track" = Ok (Some Samples.track_typedef))
    as Htd by (vm_compute; reflexivity).
  assert (∀ fieldtype n,
            fieldtype ∈ fieldtypes Samples.track_typedef →
            reaches Samples.nav_loader fieldtype n → n ≠ "nav_msgs/Track") as Hfar.
  { assert (Forall (fun fieldtype =>
                      ∃ l typesseen,
                        _get_typedefs_recursive Samples.nav_loader 5 fieldtype []
                        = Some (Ok (l, typesseen)) ∧
                        "nav_msgs/Track" ∉ typesseen)
                   (fieldtypes Samples.track_typedef)) as Hall.
    { unfold Samples.track_typedef, fieldtypes.
      repeat (apply Forall_cons; split;
              [eexists _, _; split;
               [vm_compute; reflexivity
               |apply (bool_decide_unpack _); vm_compute; exact I]|]).
      apply Forall_nil_2. }
    rewrite Forall_forall in Hall. intros ft n Hft Hn.
    destruct (Hall ft Hft) as (l & typesseen & Hrun & Hout).
    apply run_from_nothing in Hrun as [Hseen _]. apply Hseen in Hn.
    intros ->. exact (Hout Hn). }
  assert (get_service_response_typedef Samples.nav_loader "nav_msgs/GetTrack"
          = Ok (Some Samples.track_typedef)) as Hroot by (vm_compute; reflexivity).
  split; [exact Htd|]. split; [exact Hfar|]. split; [exact Hroot|].
  exact (proj2 (service_closure_agrees_with_message Samples.nav_loader _ _ Htd Hfar) _ Hroot).
Defined.

(** * The closure without duplicates (C1) *)

Section Once.

Variable loader : ros_loader.
Hypothesis loader_well_named : well_named loader.

(** The names that a run over the field types of a typedef has seen by
    its end are the names that the field types reach. *)
Lemma subtypedefs_seen fuel td0 l typesseen :
  _get_subtypedefs_recursive loader fuel (Some td0) [] = Some (Ok (l, typesseen)) →
  ∀ n, n ∈ typesseen ↔ ∃ fieldtype, fieldtype ∈ fieldtypes td0 ∧ reaches loader fieldtype n.
Proof.
  intros Hrun. unfold _get_subtypedefs_recursive, subtypedefs in Hrun.
  apply (subtypedefs_loop_expansions loader _ _ (typedefs_recursive_expansion loader _))
    in Hrun as (rest & _ & Hexp).
  apply (proj2 (expansion_reach loader)) in Hexp as (new & -> & Hfields & Hnames).
  simpl in *. intros n. split.
  - intros Hn. by destruct (Hnames n Hn) as [? _].
  - intros (ft & Hft & Hreach).
    induction Hreach as [|n td' ft' _ IH Htd' Hft']; [by apply Hfields|].
    destruct (Hnames n IH) as (_ & _ & Hclosed). by apply (Hclosed td').
Qed.

(** The list of a service entry point: the typedef of the root, and
    after it a list without duplicates in the order of the first visits.
    The type of the root is in the list a second time exactly when a
    field type of the root reaches it. *)
Lemma subtypedefs_recursive_once typedef l typesseen :
  _get_subtypedefs_recursive loader (depth_bound loader) typedef [] = Some (Ok (l, typesseen)) →
  NoDup typesseen ∧
  type <$> tail l = filter (fun type_ => has_typedef loader type_ = true) typesseen ∧
  NoDup (type <$> tail l) ∧
  match typedef with
  | Some td =>
      head l = Some td ∧
      (NoDup (type <$> l) ↔
       ¬ ∃ fieldtype, fieldtype ∈ fieldtypes td ∧ reaches loader fieldtype (type td) ∧
                      has_typedef loader (type td) = true)
  | None => l = []
  end.
Proof.
  intros Hrun. destruct typedef as [td|].
  - pose proof (subtypedefs_seen _ _ _ _ Hrun) as Hseen.
    apply subtypedefs_recursive_visited in Hrun as (subs & -> & Hsubs).
    apply (visited_NoDup loader loader_well_named) in Hsubs as (Hnd & Htypes & Hnd').
    cbn [tail head]. split; [done|]. split; [done|]. split; [done|]. split; [done|].
    rewrite fmap_cons, NoDup_cons, Htypes, list_elem_of_filter, Hseen. split.
    + intros [Hout _] (ft & Hft & Hreach & Hhas). apply Hout. split; [done|]. by exists ft.
    + intros Hnone. split; [|by rewrite <- Htypes].
      intros [Hhas (ft & Hft & Hreach)]. apply Hnone. by exists ft.
  - unfold _get_subtypedefs_recursive, subtypedefs in Hrun. injection Hrun as <- <-.
    cbn. repeat split; constructor.
Qed.

(** C1, amended. Over a loader that gives, for each message name, an
    instance of the class of that name: the list that
    [get_typedef_recursive] returns has no two typedefs of one ['type'],
    and the types in it are, in this order, the names of the final list
    of types seen (the names in the order of their first visit) that have
    a typedef. For the request and for the response of a service, the
    list is what [_get_subtypedefs_recursive] returns for the typedef of
    the root and no type seen: the typedef of the root, which is not
    recorded among the types seen, and after it a list of which the same
    holds, with the final list of types seen of this run. The whole list
    of a service has no two typedefs of one ['type'] exactly when no
    field type of the root reaches the type of the root as a name with a
    typedef. *)
Theorem closure_without_duplicates :
  (∀ type_ l,
     get_typedef_recursive loader type_ = Some (Ok l) →
     ∃ typesseen,
       _get_typedefs_recursive loader (depth_bound loader) type_ [] = Some (Ok (l, typesseen)) ∧
       NoDup typesseen ∧
       type <$> l = filter (fun type_ => has_typedef loader type_ = true) typesseen ∧
       NoDup (type <$> l)) ∧
  (∀ servicetype l,
     get_service_request_typedef_recursive loader servicetype = Some (Ok l) →
     ∃ typedef typesseen,
       get_service_request_typedef loader servicetype = Ok typedef ∧
       _get_subtypedefs_recursive loader (depth_bound loader) typedef []
       = Some (Ok (l, typesseen)) ∧
       NoDup typesseen ∧
       type <$> tail l = filter (fun type_ => has_typedef loader type_ = true) typesseen ∧
       NoDup (type <$> tail l) ∧
       match typedef with
       | Some td =>
           head l = Some td ∧
           (NoDup (type <$> l) ↔
            ¬ ∃ fieldtype, fieldtype ∈ fieldtypes td ∧ reaches loader fieldtype (type td) ∧
                           has_typedef loader (type td) = true)
       | None => l = []
       end) ∧
  (∀ servicetype l,
     get_service_response_typedef_recursive loader servicetype = Some (Ok l) →
     ∃ typedef typesseen,
       get_service_response_typedef loader servicetype = Ok typedef ∧
       _get_subtypedefs_recursive loader (depth_bound loader) typedef []
       = Some (Ok (l, typesseen)) ∧
       NoDup typesseen ∧
       type <$> tail l = filter (fun type_ => has_typedef loader type_ = true) typesseen ∧
       NoDup (type <$> tail l) ∧
       match typedef with
       | Some td =>
           head l = Some td ∧
           (NoDup (type <$> l) ↔
            ¬ ∃ fieldtype, fieldtype ∈ fieldtypes td ∧ reaches loader fieldtype (type td) ∧
                           has_typedef loader (type td) = true)
       | None => l = []
       end).
Proof.
  split; [|split].
  - intros type_ l [typesseen H]%returned_inv. exists typesseen. split; [done|].
    by apply (visited_NoDup loader loader_well_named),
             (typedefs_recursive_visited loader (depth_bound loader) type_).
  - intros servicetype l H. unfold get_service_request_typedef_recursive in H.
    destruct (get_service_request_typedef loader servicetype) as [typedef|]; [|done].
    apply returned_inv in H as [typesseen H]. exists typedef, typesseen.
    split; [done|]. split; [done|]. by apply subtypedefs_recursive_once.
  - intros servicetype l H. unfold get_service_response_typedef_recursive in H.
    destruct (get_service_response_typedef loader servicetype) as [typedef|]; [|done].
    apply returned_inv in H as [typesseen H]. exists typedef, typesseen.
    split; [done|]. split; [done|]. by apply subtypedefs_recursive_once.
Qed.

End Once.

Lemma closure_without_duplicates_witness :
  well_named Samples.nav_loader ∧
  (get_typedef_recursive Samples.nav_loader "nav_msgs/Track" = Some (Ok Samples.track_closure) ∧
   ∃ typesseen,
     _get_typedefs_recursive Samples.nav_loader (depth_bound Samples.nav_loader)
       "nav_msgs/Track" [] = Some (Ok (Samples.track_closure, typesseen)) ∧
     NoDup typesseen ∧
     type <$> Samples.track_closure
     = filter (fun type_ => has_typedef Samples.nav_loader type_ = true) typesseen ∧
     NoDup (type <$> Samples.track_closure)) ∧
  (get_service_response_typedef_recursive Samples.nav_loader "nav_msgs/GetTrack"
   = Some (Ok Samples.track_closure) ∧
   ∃ typedef typesseen,
     get_service_response_typedef Samples.nav_loader "nav_msgs/GetTrack" = Ok typedef ∧
     _get_subtypedefs_recursive Samples.nav_loader (depth_bound Samples.nav_loader) typedef []
     = Some (Ok (Samples.track_closure, typesseen)) ∧
     NoDup typesseen ∧
     type <$> tail Samples.track_closure
     = filter (fun type_ => has_typedef Samples.nav_loader type_ = true) typesseen ∧
     NoDup (type <$> tail Samples.track_closure) ∧
     match typedef with
     | Some td =>
         head Samples.track_closure = Some td ∧
         (NoDup (type <$> Samples.track_closure) ↔
          ¬ ∃ fieldtype,
              fieldtype ∈ fieldtypes td ∧
              reaches Samples.nav_loader fieldtype (type td) ∧
              has_typedef Samples.nav_loader (type td) = true)
     | None => Samples.track_closure = []
     end).
Proof.
  assert (well_named Samples.nav_loader) as Hnamed
    by (apply (bool_decide_unpack _); vm_compute; exact I).
  assert (get_typedef_recursive Samples.nav_loader "nav_msgs/Track"
          = Some (Ok Samples.track_closure)) as Hclosure by (vm_compute; reflexivity).
  assert (get_service_response_typedef_recursive Samples.nav_loader "nav_msgs/GetTrack"
          = Some (Ok Samples.track_closure)) as Hservice by (vm_compute; reflexivity).
  destruct (closure_without_duplicates Samples.nav_loader Hnamed) as (Hname & _ & Hresponse).
  split; [exact Hnamed|].
  split; [split; [exact Hclosure|exact (Hname _ _ Hclosure)]|].
  split; [exact Hservice|exact (Hresponse _ _ Hservice)].
Defined.

(** C1 as stated fails at the request of a service: the typedef of the
    root is in the list before any type is recorded as seen, and it is in
    the list again when a field leads back to its type. It also fails
    for a root asked for under a second spelling of its name: the list of
    types seen holds the spelling, and the ['type'] of the typedef is the
    name that the instance gives. *)
Lemma service_root_listed_twice :
  (well_named Samples.graph_loader ∧
   get_service_request_typedef_recursive Samples.graph_loader "graph_msgs/Walk"
   = Some (Ok [Samples.walk_request_typedef; Samples.walk_request_typedef]) ∧
   type <$> [Samples.walk_request_typedef; Samples.walk_request_typedef]
   = ["graph_msgs/WalkRequest"; "graph_msgs/WalkRequest"]) ∧
  (get_typedef_recursive Samples.alias_loader "/graph_msgs/Node"
   = Some (Ok [Samples.node_typedef; Samples.node_typedef]) ∧
   type <$> [Samples.node_typedef; Samples.node_typedef]
   = ["graph_msgs/Node"; "graph_msgs/Node"]).
Proof.
  split.
  - split; [apply (bool_decide_unpack _); vm_compute; exact I|].
    split; [vm_compute; reflexivity|reflexivity].
  - split; [vm_compute; reflexivity|reflexivity].
Qed.
